(** * pymarquise: the Python binding of libmarquise

    A shallow embedding of [marquise/marquise.py] and of the helpers of
    [marquise/marquise_cffi.py] it calls.

    - A Python [str] is a list of Unicode code points, a [bytes] object or a
      C [char] buffer a list of 8-bit integers.
    - Python exceptions are an error result; every method runs in a state
      and error monad over the [world]: the native calls made so far, the
      [errno] CFFI saved after the last one, what was printed, the clock.
    - libmarquise itself is a C library outside this package.  What its
      functions return is taken from an arbitrary [libmarquise] oracle that
      sees the whole history of native calls. *)

From Stdlib Require Import ZArith List Bool Lia SpecFloat.
From Stdlib Require String.
Import ListNotations.
Open Scope Z_scope.

(** ** Python values *)

Definition codepoint := Z.
Definition pystr := list Z.
Definition bytes := list Z.

(** Arguments that the binding hands over without looking at them. *)
Inductive pyobj :=
| PyNone
| PyInt (z : Z)
| PyStr (s : pystr).

(** ** Exceptions *)

Inductive exn_class :=
| ValueError
| TypeError
| RuntimeError
| OverflowError
| UnicodeEncodeError
| UnicodeDecodeError.

(** One constructor per [raise] of marquise.py, then the exceptions that
    come out of the libraries underneath (CFFI, the codecs, [int]). *)
Inductive exn :=
| InvalidNamespace (namespace : pystr)
| InitFailed (errno : Z)
| ClosedHandle
| SendSimpleFailed (errno : Z)
| SendExtendedFailed (errno : Z)
| NoneKey
| NoneValue
| KeyCastFailed (cause : exn)
| ValueCastFailed (cause : exn)
| NewSourceFailed (errno : Z)
| UpdateSourceFailed (errno : Z)
| CffiTypeError
| CffiOverflowError
| EncodeError
| DecodeError
| IntOfNaN
| IntOfInfinity.

Definition class_of (e : exn) : exn_class :=
  match e with
  | InvalidNamespace _ => ValueError
  | InitFailed _ => RuntimeError
  | ClosedHandle => ValueError
  | SendSimpleFailed _ => RuntimeError
  | SendExtendedFailed _ => RuntimeError
  | NoneKey => TypeError
  | NoneValue => TypeError
  | KeyCastFailed _ => TypeError
  | ValueCastFailed _ => TypeError
  | NewSourceFailed _ => ValueError
  | UpdateSourceFailed _ => RuntimeError
  | CffiTypeError => TypeError
  | CffiOverflowError => OverflowError
  | EncodeError => UnicodeEncodeError
  | DecodeError => UnicodeDecodeError
  | IntOfNaN => ValueError
  | IntOfInfinity => OverflowError
  end.

Definition exn_class_eqb (a b : exn_class) : bool :=
  match a, b with
  | ValueError, ValueError
  | TypeError, TypeError
  | RuntimeError, RuntimeError
  | OverflowError, OverflowError
  | UnicodeEncodeError, UnicodeEncodeError
  | UnicodeDecodeError, UnicodeDecodeError => true
  | _, _ => false
  end.

Inductive result (A : Type) :=
| Ok (a : A)
| Raise (e : exn).

Arguments Ok {A} a.
Arguments Raise {A} e.

Definition rbind {A B} (r : result A) (k : A -> result B) : result B :=
  match r with
  | Ok a => k a
  | Raise e => Raise e
  end.

(** ** UTF-8 *)

Module Utf8.

Definition is_surrogate (c : codepoint) : bool :=
  (0xD800 <=? c) && (c <=? 0xDFFF).

Definition continuation (c : Z) (shift : Z) : Z :=
  Z.lor 0x80 (Z.land (Z.shiftr c shift) 0x3F).

(** The bytes of one code point; [None] where the strict codec raises
    (a lone surrogate) or where no Python string has such an element. *)
Definition encode_codepoint (c : codepoint) : option bytes :=
  if c <? 0 then None
  else if c <? 0x80 then Some [c]
  else if c <? 0x800 then
    Some [Z.lor 0xC0 (Z.shiftr c 6); continuation c 0]
  else if is_surrogate c then None
  else if c <? 0x10000 then
    Some [Z.lor 0xE0 (Z.shiftr c 12); continuation c 6; continuation c 0]
  else if c <? 0x110000 then
    Some [Z.lor 0xF0 (Z.shiftr c 18); continuation c 12;
          continuation c 6; continuation c 0]
  else None.

Fixpoint encode (s : pystr) : option bytes :=
  match s with
  | [] => Some []
  | c :: s' =>
      match encode_codepoint c, encode s' with
      | Some bs, Some rest => Some (bs ++ rest)
      | _, _ => None
      end
  end.

Definition is_continuation (b : Z) : bool :=
  (0x80 <=? b) && (b <=? 0xBF).

Definition payload (b : Z) : Z := Z.land b 0x3F.

(** The strict decoder: shortest forms only, no surrogates, nothing
    above U+10FFFF. *)
Fixpoint decode (bs : bytes) : option pystr :=
  match bs with
  | [] => Some []
  | b0 :: r0 =>
      if (0 <=? b0) && (b0 <? 0x80) then option_map (cons b0) (decode r0)
      else if (0xC2 <=? b0) && (b0 <=? 0xDF) then
        match r0 with
        | b1 :: r1 =>
            if is_continuation b1 then
              option_map
                (cons (Z.lor (Z.shiftl (Z.land b0 0x1F) 6) (payload b1)))
                (decode r1)
            else None
        | _ => None
        end
      else if (0xE0 <=? b0) && (b0 <=? 0xEF) then
        match r0 with
        | b1 :: b2 :: r2 =>
            let c := Z.lor (Z.shiftl (Z.land b0 0x0F) 12)
                       (Z.lor (Z.shiftl (payload b1) 6) (payload b2)) in
            if is_continuation b1 && is_continuation b2
               && (0x800 <=? c) && negb (is_surrogate c)
            then option_map (cons c) (decode r2)
            else None
        | _ => None
        end
      else if (0xF0 <=? b0) && (b0 <=? 0xF4) then
        match r0 with
        | b1 :: b2 :: b3 :: r3 =>
            let c := Z.lor (Z.shiftl (Z.land b0 0x07) 18)
                       (Z.lor (Z.shiftl (payload b1) 12)
                          (Z.lor (Z.shiftl (payload b2) 6) (payload b3))) in
            if is_continuation b1 && is_continuation b2
               && is_continuation b3
               && (0x10000 <=? c) && (c <? 0x110000)
            then option_map (cons c) (decode r3)
            else None
        | _ => None
        end
      else None
  end.

End Utf8.

(** ** marquise_cffi.py: strings across the C boundary *)

Module Cffi.

(** Modelled from the spec: [safe_encode] and [safe_decode] live in
    [oslo_strutils], which is not among the sources.  [cstring],
    [len_cstring] and [cprint] document them as the UTF-8 codec of a
    Python string; a string the codec refuses raises. *)
Definition safe_encode (text : pystr) : result bytes :=
  match Utf8.encode text with
  | Some bs => Ok bs
  | None => Raise EncodeError
  end.

(** Modelled from the spec: [safe_decode] of [oslo_strutils], the
    strict UTF-8 decoder. *)
Definition safe_decode (text : bytes) : result pystr :=
  match Utf8.decode text with
  | Some s => Ok s
  | None => Raise DecodeError
  end.

(** [FFI.new('char[]', init)]: a fresh array holding the initialiser
    and the terminating NUL. *)
Definition ffi_new_chars (init : bytes) : bytes := init ++ [0].

(** [FFI.string(p)], and every C function that is given a [char *]
    without a length: the bytes before the first NUL. *)
Fixpoint ffi_string (buf : bytes) : bytes :=
  match buf with
  | [] => []
  | b :: rest => if b =? 0 then [] else b :: ffi_string rest
  end.

Definition cprint (ffi_str : bytes) : result pystr :=
  safe_decode (ffi_string ffi_str).

Definition cstring (new_string : pystr) : result bytes :=
  rbind (safe_encode new_string) (fun bs => Ok (ffi_new_chars bs)).

Definition len_cstring (new_string : pystr) : result Z :=
  rbind (safe_encode new_string) (fun bs => Ok (Z.of_nat (length bs))).

Definition NULL : Z := 0.

Definition is_cnull (maybe_null : Z) : bool := maybe_null =? NULL.

(** [FFI.cast("uint64_t", n)] and [FFI.cast("size_t", n)] of a Python
    int: the value modulo 2^64. *)
Definition cast_uint64 (n : Z) : Z := n mod 2 ^ 64.

(** An argument handed to a [uint64_t] parameter without a cast.  CFFI
    converts it strictly: an int outside 0 .. 2^64-1 raises
    [OverflowError], what is no int raises [TypeError], both before the
    C function is entered. *)
Definition to_c_uint64 (o : pyobj) : result Z :=
  match o with
  | PyInt z =>
      if (0 <=? z) && (z <? 2 ^ 64) then Ok z else Raise CffiOverflowError
  | _ => Raise CffiTypeError
  end.

End Cffi.

(** ** The native library and the world around a context *)

Definition EINVAL : Z := 22.

(** The [marquise_ctx] struct as far as the binding reads it. *)
Record marquise_ctx_t := {
  ctx_ptr : Z;
  ctx_spool_path_points : bytes;
  ctx_spool_path_contents : bytes
}.

Inductive native_call :=
| Call_init (marquise_namespace : bytes)
| Call_shutdown (ctx : Z)
| Call_send_simple (ctx : Z) (address timestamp value : Z)
| Call_send_extended (ctx : Z) (address timestamp : Z)
    (value : bytes) (length : Z)
| Call_new_source (fields values : list bytes) (n_tags : Z)
| Call_update_source (ctx : Z) (address : Z) (source : Z)
| Call_free_source (source : Z).

(** What libmarquise answers: the value a call returns (a status, or a
    pointer with 0 for NULL) and the [errno] it leaves, both as the
    library pleases given everything it was asked before.  [siphash] is
    the keyed hash behind [marquise_hash_identifier], a function of the
    bytes it is told to read. *)
Record libmarquise := {
  siphash : bytes -> Z;
  lm_ret : list native_call -> native_call -> Z;
  lm_errno : list native_call -> native_call -> Z
}.

Inductive debug_line :=
| Dbg_already_closed
| Dbg_shutting_down (points contents : pystr)
| Dbg_supplied_address (address : pyobj)
| Dbg_send_simple_returned (success : Z)
| Dbg_sending_extended (value : pystr) (c_length : Z)
| Dbg_send_extended_returned (success : Z)
| Dbg_update_source_returned (success : Z).

Record world := {
  native_trace : list native_call;
  ffi_errno : Z;
  stdout : list debug_line;
  time_time : spec_float
}.

(** ** The monad of the methods *)

Definition M (A : Type) : Type := world -> result A * world.

Definition ret {A} (a : A) : M A := fun w => (Ok a, w).

Definition raise {A} (e : exn) : M A := fun w => (Raise e, w).

Definition bind {A B} (m : M A) (k : A -> M B) : M B :=
  fun w =>
    match m w with
    | (Ok a, w') => k a w'
    | (Raise e, w') => (Raise e, w')
    end.

Definition lift {A} (r : result A) : M A := fun w => (r, w).

Notation "x <- m ;; k" := (bind m (fun x => k))
  (at level 61, m at next level, right associativity).
Notation "m ;;; k" := (bind m (fun _ => k))
  (at level 61, right associativity).

(** [try: body / except TypeError: handler; raise]. *)
Definition except_TypeError_reraise {A} (body : M A) (handler : M unit)
  : M A :=
  fun w =>
    match body w with
    | (Ok a, w') => (Ok a, w')
    | (Raise e, w') =>
        if exn_class_eqb (class_of e) TypeError then
          match handler w' with
          | (Ok _, w'') => (Raise e, w'')
          | (Raise e', w'') => (Raise e', w'')
          end
        else (Raise e, w')
    end.

(** [try: body / except Exception as e: raise wrap(e)]. *)
Definition except_Exception_raise {A} (body : result A) (wrap : exn -> exn)
  : result A :=
  match body with
  | Ok a => Ok a
  | Raise e => Raise (wrap e)
  end.

Fixpoint mapM {A B} (f : A -> result B) (l : list A) : result (list B) :=
  match l with
  | [] => Ok []
  | a :: l' =>
      match f a with
      | Ok b => rbind (mapM f l') (fun bs => Ok (b :: bs))
      | Raise e => Raise e
      end
  end.

Definition get_errno : M Z := fun w => (Ok (ffi_errno w), w).

Definition print (line : debug_line) : M unit :=
  fun w =>
    (Ok tt,
     {| native_trace := native_trace w;
        ffi_errno := ffi_errno w;
        stdout := stdout w ++ [line];
        time_time := time_time w |}).

(** ** Floats, for [time.time()] *)

Definition binary64_prec : Z := 53.
Definition binary64_emax : Z := 1024.

(** The float of a Python int (exact below 2^53). *)
Definition float_of_int (n : Z) : spec_float :=
  binary_normalize binary64_prec binary64_emax n 0 false.

Definition float_mul (x y : spec_float) : spec_float :=
  SFmul binary64_prec binary64_emax x y.

(** [int(x)]: truncation towards zero. *)
Definition int_of_float (x : spec_float) : result Z :=
  match x with
  | S754_zero _ => Ok 0
  | S754_infinity _ => Raise IntOfInfinity
  | S754_nan => Raise IntOfNaN
  | S754_finite s m e =>
      let magnitude :=
        if 0 <=? e then Z.pos m * 2 ^ e else Z.pos m / 2 ^ (- e) in
      Ok (if s then - magnitude else magnitude)
  end.

(** ** libmarquise's [marquise_init] *)

Module Libmarquise.

Definition is_namespace_char (b : Z) : bool :=
  ((97 <=? b) && (b <=? 122)) || ((48 <=? b) && (b <=? 57)).

(** Modelled from the spec: the namespace check of [marquise_init],
    which is C code outside this package: the namespace matches
    [[a-z0-9]+]. *)
Definition valid_namespace (ns : bytes) : bool :=
  match ns with
  | [] => false
  | _ => forallb is_namespace_char ns
  end.

(** Modelled from the spec: the well-known base directory of the
    spool, "/var/spool/marquise". *)
Definition spool_prefix : bytes :=
  [47; 118; 97; 114; 47; 115; 112; 111; 111; 108;
   47; 109; 97; 114; 113; 117; 105; 115; 101].

(** "points" and "contents" *)
Definition stream_points : bytes := [112; 111; 105; 110; 116; 115].
Definition stream_contents : bytes :=
  [99; 111; 110; 116; 101; 110; 116; 115].

(** Modelled from the spec: the spool paths [marquise_init] stores in
    the context: deterministic, on a well-known base directory, derived
    from the namespace, one per stream type. *)
Definition build_spool_path (ns stream : bytes) : bytes :=
  spool_prefix ++ [47] ++ ns ++ [47] ++ stream.

End Libmarquise.

(** ** marquise.py: class Marquise *)

Record Marquise := {
  debug_enabled : bool;
  namespace_c : bytes;
  marquise_ctx : option marquise_ctx_t;
  spool_path_points : pystr;
  spool_path_contents : pystr
}.

(** A [metadata_dict]: the items of the dict in its order; a key or a
    value is [None] or a string. *)
Definition metadata := list (option pystr * option pystr).

Definition keys (d : metadata) : list (option pystr) := map fst d.
Definition values (d : metadata) : list (option pystr) := map snd d.

Definition is_None {A} (x : option A) : bool :=
  match x with
  | None => true
  | Some _ => false
  end.

(** [cstring(x)] on an item of the dict; [safe_encode] takes strings
    only. *)
Definition cstring_item (x : option pystr) : result bytes :=
  match x with
  | Some s => Cffi.cstring s
  | None => Raise CffiTypeError
  end.

Section Binding.

Variable lib : libmarquise.

(** A call into [C_LIBMARQUISE]: recorded, answered by the library,
    [FFI.errno] refreshed. *)
Definition native (call : native_call) : M Z :=
  fun w =>
    (Ok (lm_ret lib (native_trace w) call),
     {| native_trace := native_trace w ++ [call];
        ffi_errno := lm_errno lib (native_trace w) call;
        stdout := stdout w;
        time_time := time_time w |}).

(** Modelled from the spec: [marquise_init] of libmarquise, C code
    outside this package.  It reads its [char *] up to the NUL, refuses
    a namespace outside [[a-z0-9]+] with [EINVAL] before anything else,
    and otherwise returns a context with the two spool paths, or NULL
    when a resource fails. *)
Definition marquise_init (marquise_namespace : bytes)
  : M (option marquise_ctx_t) :=
  fun w =>
    let call := Call_init marquise_namespace in
    let ns := Cffi.ffi_string marquise_namespace in
    let after errno :=
      {| native_trace := native_trace w ++ [call];
         ffi_errno := errno;
         stdout := stdout w;
         time_time := time_time w |} in
    if Libmarquise.valid_namespace ns then
      let p := lm_ret lib (native_trace w) call in
      if Cffi.is_cnull p then
        (Ok None, after (lm_errno lib (native_trace w) call))
      else
        (Ok (Some
               {| ctx_ptr := p;
                  ctx_spool_path_points :=
                    Libmarquise.build_spool_path ns
                      Libmarquise.stream_points ++ [0];
                  ctx_spool_path_contents :=
                    Libmarquise.build_spool_path ns
                      Libmarquise.stream_contents ++ [0] |}),
         after (lm_errno lib (native_trace w) call))
    else (Ok None, after EINVAL).

Definition __init__ (namespace : pystr) (debug : bool) : M Marquise :=
  namespace_c <- lift (Cffi.cstring namespace) ;;
  ctx <- marquise_init namespace_c ;;
  match ctx with
  | None =>
      errno <- get_errno ;;
      if errno =? EINVAL then raise (InvalidNamespace namespace)
      else raise (InitFailed errno)
  | Some c =>
      points <- lift (Cffi.cprint (ctx_spool_path_points c)) ;;
      contents <- lift (Cffi.cprint (ctx_spool_path_contents c)) ;;
      ret {| debug_enabled := debug;
             namespace_c := namespace_c;
             marquise_ctx := Some c;
             spool_path_points := points;
             spool_path_contents := contents |}
  end.

Definition __debug (self : Marquise) (msg : debug_line) : M unit :=
  if debug_enabled self then print msg else ret tt.

Definition close (self : Marquise) : M Marquise :=
  match marquise_ctx self with
  | None =>
      __debug self Dbg_already_closed ;;;
      ret self
  | Some ctx =>
      __debug self
        (Dbg_shutting_down (spool_path_points self)
           (spool_path_contents self)) ;;;
      native (Call_shutdown (ctx_ptr ctx)) ;;;
      ret {| debug_enabled := debug_enabled self;
             namespace_c := namespace_c self;
             marquise_ctx := None;
             spool_path_points := spool_path_points self;
             spool_path_contents := spool_path_contents self |}
  end.

(** [len(identifier)] counts the code points of the string. *)
Definition hash_identifier (identifier : pystr) : result Z :=
  rbind (Cffi.cstring identifier) (fun buf =>
    Ok (siphash lib (firstn (length identifier) buf))).

Definition current_timestamp : M Z :=
  fun w =>
    (int_of_float (float_mul (time_time w) (float_of_int 1000000000)), w).

(** [if timestamp is None: timestamp = self.current_timestamp()] *)
Definition timestamp_or_now (timestamp : option Z) : M Z :=
  match timestamp with
  | None => current_timestamp
  | Some t => ret t
  end.

Definition send_simple (self : Marquise)
    (address : Z) (timestamp : option Z) (value : Z) : M bool :=
  match marquise_ctx self with
  | None => raise ClosedHandle
  | Some ctx =>
      __debug self (Dbg_supplied_address (PyInt address)) ;;;
      timestamp <- timestamp_or_now timestamp ;;
      let c_address := Cffi.cast_uint64 address in
      let c_timestamp := Cffi.cast_uint64 timestamp in
      let c_value := Cffi.cast_uint64 value in
      success <- native (Call_send_simple (ctx_ptr ctx)
                           c_address c_timestamp c_value) ;;
      __debug self (Dbg_send_simple_returned success) ;;;
      if negb (success =? 0) then
        errno <- get_errno ;; raise (SendSimpleFailed errno)
      else ret true
  end.

Definition send_extended (self : Marquise)
    (address : Z) (timestamp : option Z) (value : pystr) : M bool :=
  match marquise_ctx self with
  | None => raise ClosedHandle
  | Some ctx =>
      __debug self (Dbg_supplied_address (PyInt address)) ;;;
      timestamp <- timestamp_or_now timestamp ;;
      let c_address := Cffi.cast_uint64 address in
      let c_timestamp := Cffi.cast_uint64 timestamp in
      c_value <- lift (Cffi.cstring value) ;;
      len <- lift (Cffi.len_cstring value) ;;
      let c_length := Cffi.cast_uint64 len in
      __debug self (Dbg_sending_extended value c_length) ;;;
      success <- native (Call_send_extended (ctx_ptr ctx)
                           c_address c_timestamp c_value c_length) ;;
      __debug self (Dbg_send_extended_returned success) ;;;
      if negb (success =? 0) then
        errno <- get_errno ;; raise (SendExtendedFailed errno)
      else ret true
  end.

Definition update_source (self : Marquise)
    (address : pyobj) (metadata_dict : metadata) : M bool :=
  match marquise_ctx self with
  | None => raise ClosedHandle
  | Some ctx =>
      __debug self (Dbg_supplied_address address) ;;;
      if existsb is_None (keys metadata_dict) then raise NoneKey
      else if existsb is_None (values metadata_dict) then raise NoneValue
      else
        c_fields <- lift (except_Exception_raise
                            (mapM cstring_item (keys metadata_dict))
                            KeyCastFailed) ;;
        c_values <- lift (except_Exception_raise
                            (mapM cstring_item (values metadata_dict))
                            ValueCastFailed) ;;
        source_dict <- native (Call_new_source c_fields c_values
                                 (Z.of_nat (length metadata_dict))) ;;
        if Cffi.is_cnull source_dict then
          errno <- get_errno ;; raise (NewSourceFailed errno)
        else
          success <- except_TypeError_reraise
                       (c_address <- lift (Cffi.to_c_uint64 address) ;;
                        native (Call_update_source (ctx_ptr ctx)
                                  c_address source_dict))
                       (native (Call_free_source source_dict) ;;; ret tt) ;;
          __debug self (Dbg_update_source_returned success) ;;;
          if negb (success =? 0) then
            native (Call_free_source source_dict) ;;;
            errno <- get_errno ;; raise (UpdateSourceFailed errno)
          else
            native (Call_free_source source_dict) ;;;
            ret true
  end.

End Binding.

(** ** Sessions: a context used through a sequence of method calls *)

Inductive method_call :=
| Do_close
| Do_send_simple (address : Z) (timestamp : option Z) (value : Z)
| Do_send_extended (address : Z) (timestamp : option Z) (value : pystr)
| Do_update_source (address : pyobj) (metadata_dict : metadata).

Definition is_write (c : method_call) : bool :=
  match c with
  | Do_close => false
  | _ => true
  end.

(** One call on the object: what it returns or raises ([None] for the
    [None] of [close]), the object afterwards, the world afterwards. *)
Definition invoke (lib : libmarquise) (self : Marquise) (c : method_call)
    (w : world) : result (option bool) * Marquise * world :=
  let returned (m : M bool) :=
    match m w with
    | (Ok b, w') => (Ok (Some b), self, w')
    | (Raise e, w') => (Raise e, self, w')
    end in
  match c with
  | Do_close =>
      match close lib self w with
      | (Ok self', w') => (Ok None, self', w')
      | (Raise e, w') => (Raise e, self, w')
      end
  | Do_send_simple a t v => returned (send_simple lib self a t v)
  | Do_send_extended a t v => returned (send_extended lib self a t v)
  | Do_update_source a d => returned (update_source lib self a d)
  end.

Fixpoint session (lib : libmarquise) (self : Marquise)
    (calls : list method_call) (w : world) : list (result (option bool)) :=
  match calls with
  | [] => []
  | c :: calls' =>
      let '(r, self', w') := invoke lib self c w in
      r :: session lib self' calls' w'
  end.

(** How often a source handle was handed to [marquise_free_source]. *)
Fixpoint count_free (source : Z) (trace : list native_call) : nat :=
  match trace with
  | [] => O
  | Call_free_source s :: rest =>
      if s =? source then S (count_free source rest)
      else count_free source rest
  | _ :: rest => count_free source rest
  end.

(** The pattern [[a-z0-9]+] on a Python string. *)
Definition namespace_pattern (namespace : pystr) : bool :=
  match namespace with
  | [] => false
  | _ => forallb Libmarquise.is_namespace_char namespace
  end.

(** Text of ASCII characters other than NUL. *)
Definition is_ascii_text (s : list Z) : bool :=
  forallb (fun c => (0 <? c) && (c <? 0x80)) s.

(** ** Sample libraries, worlds and contexts *)

(** Every call succeeds; the hash is a stand-in polynomial hash. *)
Definition lib_healthy : libmarquise :=
  {| siphash := fun bs => fold_left (fun h b => (h * 257 + b + 1) mod 2 ^ 64) bs 0;
     lm_ret := fun _ call =>
       match call with
       | Call_init _ => 4096
       | Call_new_source _ _ _ => 8192
       | _ => 0
       end;
     lm_errno := fun _ _ => 0 |}.

(** [malloc] fails in [marquise_init] (ENOMEM), the spool is full for
    everything else (ENOSPC). *)
Definition lib_exhausted : libmarquise :=
  {| siphash := fun _ => 0;
     lm_ret := fun _ call =>
       match call with
       | Call_init _ => 0
       | Call_new_source _ _ _ => 8192
       | Call_free_source _ => 0
       | _ => -1
       end;
     lm_errno := fun _ call =>
       match call with
       | Call_init _ => 12
       | _ => 28
       end |}.

(** [marquise_new_source] fails (EINVAL), everything else succeeds. *)
Definition lib_no_source : libmarquise :=
  {| siphash := fun _ => 0;
     lm_ret := fun _ call =>
       match call with
       | Call_init _ => 4096
       | _ => 0
       end;
     lm_errno := fun _ call =>
       match call with
       | Call_new_source _ _ _ => 22
       | _ => 0
       end |}.

(** [marquise_update_source] fails and leaves EIO; the calls around it
    succeed and leave errno 0. *)
Definition lib_update_fails : libmarquise :=
  {| siphash := fun _ => 0;
     lm_ret := fun _ call =>
       match call with
       | Call_init _ => 4096
       | Call_new_source _ _ _ => 8192
       | Call_update_source _ _ _ => -1
       | _ => 0
       end;
     lm_errno := fun _ call =>
       match call with
       | Call_update_source _ _ _ => 5
       | _ => 0
       end |}.

(** About 1700000000.1234 seconds since the epoch. *)
Definition sample_world : world :=
  {| native_trace := [];
     ffi_errno := 0;
     stdout := [];
     time_time := S754_finite false 7130316800517800 (-22) |}.

(** "abc", "k", "v" and a value with a NUL and a non-ASCII letter. *)
Definition str_abc : pystr := [97; 98; 99].
Definition str_k : pystr := [107].
Definition str_v : pystr := [118].
Definition str_binary : pystr := [97; 0; 0xE9; 98].

Definition sample_ctx : marquise_ctx_t :=
  {| ctx_ptr := 4096;
     ctx_spool_path_points :=
       Libmarquise.build_spool_path str_abc Libmarquise.stream_points ++ [0];
     ctx_spool_path_contents :=
       Libmarquise.build_spool_path str_abc Libmarquise.stream_contents
         ++ [0] |}.

Definition sample_open : Marquise :=
  {| debug_enabled := true;
     namespace_c := str_abc ++ [0];
     marquise_ctx := Some sample_ctx;
     spool_path_points :=
       Libmarquise.build_spool_path str_abc Libmarquise.stream_points;
     spool_path_contents :=
       Libmarquise.build_spool_path str_abc Libmarquise.stream_contents |}.

(** ** marquise_cffi.py: the header handed to CFFI *)

Module Header.

Import String.
Local Open Scope string_scope.

(** [s.replace(old, new)] for a non-empty [old]: the occurrences of
    [old] are found from the left and do not overlap.  [skip] counts the
    characters of an occurrence that remain to be passed over. *)
Fixpoint replace_from (skip : nat) (old new s : string) : string :=
  match s with
  | EmptyString => EmptyString
  | String c s' =>
      match skip with
      | S k => replace_from k old new s'
      | O =>
          if prefix old s
          then new ++ replace_from (Nat.pred (length old)) old new s'
          else String c (replace_from O old new s')
      end
  end.

Definition str_replace (old new s : string) : string :=
  replace_from O old new s.

(** [old in s] *)
Fixpoint occurs (old s : string) : bool :=
  match s with
  | EmptyString => false
  | String _ s' => prefix old s || occurs old s'
  end.

Definition startswith (s p : string) : bool := prefix p s.

(** [get_libmarquise_header] on the lines [header.readlines()] gave. *)
Definition get_libmarquise_header (libmarquise_header_lines : list string)
  : string :=
  let lines1 :=
    filter (fun line => negb (startswith line "#include ")
                        && negb (startswith line "#define "))
           libmarquise_header_lines in
  let lines2 :=
    filter (fun line => negb (startswith line "#include ")) lines1 in
  let lines3 :=
    map (fun line => str_replace "GTree *sd_hashes;" "...;" line) lines2 in
  concat "" lines3.

End Header.

(** ** Observing a context over a sequence of calls *)

(** The object and the world at the end of a sequence of calls. *)
Fixpoint session_end (lib : libmarquise) (self : Marquise)
    (calls : list method_call) (w : world) : Marquise * world :=
  match calls with
  | [] => (self, w)
  | c :: calls' =>
      let '(_, self', w') := invoke lib self c w in
      session_end lib self' calls' w'
  end.

(** The same object with [debug_enabled] set. *)
Definition with_debug (debug : bool) (self : Marquise) : Marquise :=
  {| debug_enabled := debug;
     namespace_c := namespace_c self;
     marquise_ctx := marquise_ctx self;
     spool_path_points := spool_path_points self;
     spool_path_contents := spool_path_contents self |}.

(** The context pointer a native call is given, if it takes one. *)
Definition call_ctx (c : native_call) : option Z :=
  match c with
  | Call_shutdown p => Some p
  | Call_send_simple p _ _ _ => Some p
  | Call_send_extended p _ _ _ _ => Some p
  | Call_update_source p _ _ => Some p
  | Call_init _ | Call_new_source _ _ _ | Call_free_source _ => None
  end.

(** A native call a write method may make on the context at [p]. *)
Definition write_call (p : Z) (c : native_call) : bool :=
  match c with
  | Call_init _ | Call_shutdown _ => false
  | Call_send_simple q _ _ _ => q =? p
  | Call_send_extended q _ _ _ _ => q =? p
  | Call_update_source q _ _ => q =? p
  | Call_new_source _ _ _ | Call_free_source _ => true
  end.

(** The discipline of a context at [p]: write calls on [p], then at most
    one [marquise_shutdown], of [p], and nothing after it. *)
Fixpoint handle_discipline (p : Z) (calls : list native_call) : bool :=
  match calls with
  | [] => true
  | Call_shutdown q :: rest =>
      (q =? p) && match rest with [] => true | _ :: _ => false end
  | c :: rest => write_call p c && handle_discipline p rest
  end.

(** Two objects that differ at most in [debug_enabled]. *)
Definition same_but_debug (s1 s2 : Marquise) : Prop :=
  namespace_c s1 = namespace_c s2
  /\ marquise_ctx s1 = marquise_ctx s2
  /\ spool_path_points s1 = spool_path_points s2
  /\ spool_path_contents s1 = spool_path_contents s2.

(** Two worlds that differ at most in what was printed. *)
Definition same_but_stdout (w1 w2 : world) : Prop :=
  native_trace w1 = native_trace w2
  /\ ffi_errno w1 = ffi_errno w2
  /\ time_time w1 = time_time w2.

(** Two runs that agree on what they return and on the world they
    leave, what was printed apart, whenever they start that way. *)
Definition agree {A} (m1 m2 : M A) : Prop :=
  forall w1 w2,
    same_but_stdout w1 w2 ->
    fst (m1 w1) = fst (m2 w2)
    /\ same_but_stdout (snd (m1 w1)) (snd (m2 w2)).

(** A run that keeps a relation between the world before and after. *)
Definition preserves (I : world -> world -> Prop) {A} (m : M A) : Prop :=
  forall w, I w (snd (m w)).

(** The world moved on by native calls that all satisfy [P]. *)
Definition extended_by (P : native_call -> Prop) (w w' : world) : Prop :=
  exists added,
    native_trace w' = native_trace w ++ added /\ Forall P added.

(** The part of a string before its first NUL character. *)
Fixpoint up_to_NUL (s : pystr) : pystr :=
  match s with
  | [] => []
  | c :: rest => if c =? 0 then [] else c :: up_to_NUL rest
  end.

(** All characters below U+0080. *)
Definition is_ascii (s : pystr) : bool := forallb (fun c => c <? 0x80) s.

(** * Properties *)

(** ** The monad and the debug channel *)

Lemma debug_keeps_trace self msg w :
  fst (__debug self msg w) = Ok tt
  /\ native_trace (snd (__debug self msg w)) = native_trace w
  /\ ffi_errno (snd (__debug self msg w)) = ffi_errno w
  /\ time_time (snd (__debug self msg w)) = time_time w.
Proof.
  unfold __debug. destruct (debug_enabled self); cbn; auto.
Qed.

Lemma debug_trace self msg w :
  native_trace (snd (__debug self msg w)) = native_trace w.
Proof. apply debug_keeps_trace. Qed.

Lemma debug_errno self msg w :
  ffi_errno (snd (__debug self msg w)) = ffi_errno w.
Proof. apply debug_keeps_trace. Qed.

Lemma debug_clock self msg w :
  time_time (snd (__debug self msg w)) = time_time w.
Proof. apply debug_keeps_trace. Qed.

Create Rewrite HintDb world.
#[local] Hint Rewrite debug_trace debug_errno debug_clock : world.

(** One step of a method: the monad's operations unfolded, the debug
    channel left folded. *)
Ltac run_method :=
  cbn [bind ret raise lift native get_errno except_TypeError_reraise
         except_Exception_raise negb fst snd native_trace ffi_errno].

Lemma bind_debug {A} self msg (k : M A) w :
  (__debug self msg ;;; k) w = k (snd (__debug self msg w)).
Proof.
  unfold bind, __debug. destruct (debug_enabled self); reflexivity.
Qed.

Lemma existsb_is_None {A} (l : list (option A)) :
  existsb is_None l = true <-> In None l.
Proof.
  rewrite existsb_exists. split.
  - intros [x [Hin Hx]]. destruct x; [discriminate | exact Hin].
  - intros Hin. exists None. split; [exact Hin | reflexivity].
Qed.

(** ** close *)

Lemma close_returns lib self w :
  exists closed,
    fst (close lib self w) = Ok closed /\ marquise_ctx closed = None.
Proof.
  unfold close. destruct (marquise_ctx self) as [ctx|] eqn:Hctx.
  - rewrite bind_debug. cbn. eexists. split; reflexivity.
  - rewrite bind_debug. cbn. exists self. split; [reflexivity | exact Hctx].
Qed.

Lemma close_closed lib self w :
  marquise_ctx self = None ->
  fst (close lib self w) = Ok self
  /\ native_trace (snd (close lib self w)) = native_trace w
  /\ ffi_errno (snd (close lib self w)) = ffi_errno w.
Proof.
  intros Hctx. unfold close. rewrite Hctx, bind_debug. cbn.
  destruct (debug_keeps_trace self Dbg_already_closed w)
    as (_ & Ht & He & _).
  auto.
Qed.

(** C4: whatever the context, [close] returns, and on the context it
    leaves every further [close] returns too, hands back the same object,
    makes no native call (so no second [marquise_shutdown]) and leaves
    [FFI.errno] alone. *)
Theorem close_is_idempotent lib self w :
  exists closed,
    fst (close lib self w) = Ok closed
    /\ forall w',
        fst (close lib closed w') = Ok closed
        /\ native_trace (snd (close lib closed w')) = native_trace w'
        /\ ffi_errno (snd (close lib closed w')) = ffi_errno w'.
Proof.
  destruct (close_returns lib self w) as (closed & Hok & Hnone).
  exists closed. split; [exact Hok |].
  intros w'. now apply close_closed.
Qed.

(** ** Writes through a closed context *)

Lemma write_closed lib self c w :
  marquise_ctx self = None ->
  is_write c = true ->
  invoke lib self c w = (Raise ClosedHandle, self, w).
Proof.
  intros Hctx Hw. destruct c; try discriminate; cbn;
    [unfold send_simple | unfold send_extended | unfold update_source];
    rewrite Hctx; reflexivity.
Qed.

Lemma invoke_closed lib self c w :
  marquise_ctx self = None ->
  marquise_ctx (snd (fst (invoke lib self c w))) = None.
Proof.
  intros Hctx. destruct c.
  - cbn. destruct (close_closed lib self w Hctx) as (Hok & _).
    destruct (close lib self w) as [r w']. cbn in Hok. subst r. exact Hctx.
  - rewrite write_closed by auto. exact Hctx.
  - rewrite write_closed by auto. exact Hctx.
  - rewrite write_closed by auto. exact Hctx.
Qed.

Lemma session_closed lib self calls : forall w,
  marquise_ctx self = None ->
  Forall2 (fun c r => is_write c = true -> r = Raise ClosedHandle)
          calls (session lib self calls w).
Proof.
  revert self. induction calls as [|c calls IH]; intros self w Hctx.
  - constructor.
  - cbn [session].
    pose proof (invoke_closed lib self c w Hctx) as Hnext.
    destruct (invoke lib self c w) as [[r self'] w'] eqn:Hinv.
    constructor.
    + intros Hw. rewrite write_closed in Hinv by assumption.
      now inversion Hinv.
    + apply IH. exact Hnext.
Qed.

(** C3: once [close] has been called on a context, in whatever state it
    was, every [send_simple], [send_extended] and [update_source] of any
    later sequence of calls on it, with any arguments and at any later
    state of the world, raises the closed-handle [ValueError]. *)
Theorem writes_after_close_raise lib self w :
  exists closed,
    fst (close lib self w) = Ok closed
    /\ forall calls w',
        Forall2 (fun c r =>
                   is_write c = true ->
                   r = Raise ClosedHandle
                   /\ class_of ClosedHandle = ValueError)
                calls (session lib closed calls w').
Proof.
  destruct (close_returns lib self w) as (closed & Hok & Hnone).
  exists closed. split; [exact Hok |].
  intros calls w'.
  eapply Forall2_impl; [| apply session_closed; exact Hnone].
  cbn. intros c r H Hw. split; [now apply H | reflexivity].
Qed.

(** ** update_source and None *)

(** C2: on an open context, a [metadata_dict] with a [None] among its
    keys or its values makes [update_source] raise a [TypeError] before
    any native call: the trace of native calls (hence the spool) and
    [FFI.errno] are as before. *)
Theorem update_source_rejects_None lib self address metadata_dict w :
  marquise_ctx self <> None ->
  In None (keys metadata_dict) \/ In None (values metadata_dict) ->
  exists e,
    fst (update_source lib self address metadata_dict w) = Raise e
    /\ class_of e = TypeError
    /\ native_trace (snd (update_source lib self address metadata_dict w))
       = native_trace w
    /\ ffi_errno (snd (update_source lib self address metadata_dict w))
       = ffi_errno w.
Proof.
  intros Hopen Hnone. unfold update_source.
  destruct (marquise_ctx self) as [ctx|]; [| congruence].
  rewrite bind_debug.
  destruct (debug_keeps_trace self (Dbg_supplied_address address) w)
    as (_ & Ht & He & _).
  destruct (existsb is_None (keys metadata_dict)) eqn:Hk.
  - exists NoneKey. cbn. auto.
  - destruct (existsb is_None (values metadata_dict)) eqn:Hv.
    + exists NoneValue. cbn. auto.
    + exfalso. destruct Hnone as [H | H]; apply existsb_is_None in H;
        congruence.
Qed.

Lemma update_source_rejects_None_witness :
  (marquise_ctx sample_open <> None
   /\ (In None (keys [(Some str_k, None)])
       \/ In None (values [(Some str_k, None)])))
  /\ exists e,
      fst (update_source lib_healthy sample_open (PyInt 5)
             [(Some str_k, None)] sample_world) = Raise e
      /\ class_of e = TypeError
      /\ native_trace
           (snd (update_source lib_healthy sample_open (PyInt 5)
                   [(Some str_k, None)] sample_world))
         = native_trace sample_world
      /\ ffi_errno
           (snd (update_source lib_healthy sample_open (PyInt 5)
                   [(Some str_k, None)] sample_world))
         = ffi_errno sample_world.
Proof.
  assert (Hopen : marquise_ctx sample_open <> None) by discriminate.
  assert (Hnone : In None (keys [(Some str_k, @None pystr)])
                  \/ In None (values [(Some str_k, @None pystr)]))
    by (right; left; reflexivity).
  split; [split; assumption |].
  exact (update_source_rejects_None lib_healthy sample_open (PyInt 5)
           [(Some str_k, None)] sample_world Hopen Hnone).
Defined.

(** ** send_simple and send_extended *)

Lemma timestamp_or_now_world timestamp w :
  snd (timestamp_or_now timestamp w) = w.
Proof. destruct timestamp; reflexivity. Qed.

Lemma timestamp_or_now_clock timestamp w w' :
  time_time w' = time_time w ->
  fst (timestamp_or_now timestamp w') = fst (timestamp_or_now timestamp w).
Proof.
  intros H. destruct timestamp; cbn; [reflexivity |].
  now rewrite H.
Qed.

Lemma bind_timestamp {A} timestamp (k : Z -> M A) t w :
  fst (timestamp_or_now timestamp w) = Ok t ->
  (x <- timestamp_or_now timestamp ;; k x) w = k t w.
Proof.
  intros Ht. unfold bind.
  pose proof (timestamp_or_now_world timestamp w) as Hw.
  destruct (timestamp_or_now timestamp w) as [r w']. cbn in Ht, Hw.
  now subst.
Qed.

Lemma bind_native {A} lib call (k : Z -> M A) w :
  (x <- native lib call ;; k x) w
  = k (lm_ret lib (native_trace w) call) (snd (native lib call w)).
Proof. reflexivity. Qed.

(** What [send_simple] does on an open context, once the timestamp is
    settled: one native call, whose status decides. *)
Lemma send_simple_open lib self ctx address timestamp t value w :
  marquise_ctx self = Some ctx ->
  fst (timestamp_or_now timestamp w) = Ok t ->
  let call := Call_send_simple (ctx_ptr ctx) (Cffi.cast_uint64 address)
                (Cffi.cast_uint64 t) (Cffi.cast_uint64 value) in
  fst (send_simple lib self address timestamp value w)
  = (if lm_ret lib (native_trace w) call =? 0 then Ok true
     else Raise (SendSimpleFailed (lm_errno lib (native_trace w) call)))
  /\ native_trace (snd (send_simple lib self address timestamp value w))
     = native_trace w ++ [call].
Proof.
  intros Hctx Ht call. unfold send_simple. rewrite Hctx, bind_debug.
  destruct (debug_keeps_trace self (Dbg_supplied_address (PyInt address)) w)
    as (_ & Htr & _ & Hclock).
  set (w1 := snd (__debug self (Dbg_supplied_address (PyInt address)) w))
    in *.
  rewrite (bind_timestamp timestamp _ t)
    by (now rewrite (timestamp_or_now_clock timestamp w w1 Hclock)).
  rewrite bind_native, bind_debug, Htr. fold call.
  unfold __debug.
  destruct (lm_ret lib (native_trace w) call =? 0);
    destruct (debug_enabled self); cbn; rewrite Htr; auto.
Qed.

Lemma cstring_encoded value encoded :
  Cffi.safe_encode value = Ok encoded ->
  Cffi.cstring value = Ok (encoded ++ [0])
  /\ Cffi.len_cstring value = Ok (Z.of_nat (length encoded)).
Proof.
  intros H. unfold Cffi.cstring, Cffi.len_cstring. rewrite H. auto.
Qed.

(** The same for [send_extended], for a value the codec accepts. *)
Lemma send_extended_open lib self ctx address timestamp t value encoded w :
  marquise_ctx self = Some ctx ->
  fst (timestamp_or_now timestamp w) = Ok t ->
  Cffi.safe_encode value = Ok encoded ->
  let call := Call_send_extended (ctx_ptr ctx) (Cffi.cast_uint64 address)
                (Cffi.cast_uint64 t) (encoded ++ [0])
                (Cffi.cast_uint64 (Z.of_nat (length encoded))) in
  fst (send_extended lib self address timestamp value w)
  = (if lm_ret lib (native_trace w) call =? 0 then Ok true
     else Raise (SendExtendedFailed (lm_errno lib (native_trace w) call)))
  /\ native_trace (snd (send_extended lib self address timestamp value w))
     = native_trace w ++ [call].
Proof.
  intros Hctx Ht Henc call. unfold send_extended.
  rewrite Hctx, bind_debug.
  destruct (debug_keeps_trace self (Dbg_supplied_address (PyInt address)) w)
    as (_ & Htr & _ & Hclock).
  set (w1 := snd (__debug self (Dbg_supplied_address (PyInt address)) w))
    in *.
  rewrite (bind_timestamp timestamp _ t)
    by (now rewrite (timestamp_or_now_clock timestamp w w1 Hclock)).
  destruct (cstring_encoded value encoded Henc) as [Hc Hl].
  rewrite Hc, Hl. cbn [bind lift]. rewrite bind_debug.
  destruct (debug_keeps_trace self
              (Dbg_sending_extended value
                 (Cffi.cast_uint64 (Z.of_nat (length encoded)))) w1)
    as (_ & Htr2 & _ & _).
  rewrite bind_native, bind_debug, Htr2, Htr. fold call.
  destruct (lm_ret lib (native_trace w) call =? 0);
    cbn [negb bind ret raise get_errno fst snd];
    autorewrite with world; cbn [native native_trace ffi_errno snd];
    autorewrite with world; rewrite ?Htr; auto.
Qed.

Lemma cast_uint64_in_range n :
  0 <= n < 2 ^ 64 -> Cffi.cast_uint64 n = n.
Proof. intros H. unfold Cffi.cast_uint64. now apply Z.mod_small. Qed.

(** C8: on an open context, with the timestamp settled and (for
    [send_extended]) a value the codec accepts, the native append is
    called once; the method returns [True] exactly when its status is 0
    and raises a [RuntimeError] when it is not. *)
Theorem send_reports_native_status
    lib self ctx address timestamp t value text encoded w :
  marquise_ctx self = Some ctx ->
  fst (timestamp_or_now timestamp w) = Ok t ->
  Cffi.safe_encode text = Ok encoded ->
  let simple := Call_send_simple (ctx_ptr ctx) (Cffi.cast_uint64 address)
                  (Cffi.cast_uint64 t) (Cffi.cast_uint64 value) in
  let extended := Call_send_extended (ctx_ptr ctx)
                    (Cffi.cast_uint64 address) (Cffi.cast_uint64 t)
                    (encoded ++ [0])
                    (Cffi.cast_uint64 (Z.of_nat (length encoded))) in
  (native_trace (snd (send_simple lib self address timestamp value w))
   = native_trace w ++ [simple]
   /\ (fst (send_simple lib self address timestamp value w) = Ok true
       <-> lm_ret lib (native_trace w) simple = 0)
   /\ (lm_ret lib (native_trace w) simple <> 0 ->
       exists e,
         fst (send_simple lib self address timestamp value w) = Raise e
         /\ class_of e = RuntimeError))
  /\ (native_trace (snd (send_extended lib self address timestamp text w))
      = native_trace w ++ [extended]
      /\ (fst (send_extended lib self address timestamp text w) = Ok true
          <-> lm_ret lib (native_trace w) extended = 0)
      /\ (lm_ret lib (native_trace w) extended <> 0 ->
          exists e,
            fst (send_extended lib self address timestamp text w) = Raise e
            /\ class_of e = RuntimeError)).
Proof.
  intros Hctx Ht Henc simple extended.
  destruct (send_simple_open lib self ctx address timestamp t value w
              Hctx Ht) as [Hs Hstr].
  destruct (send_extended_open lib self ctx address timestamp t text encoded
              w Hctx Ht Henc) as [Hx Hxtr].
  fold simple in Hs, Hstr. fold extended in Hx, Hxtr.
  split; (split; [assumption |]).
  - rewrite Hs. destruct (Z.eqb_spec (lm_ret lib (native_trace w) simple) 0)
      as [E | E]; split.
    + tauto.
    + congruence.
    + split; [discriminate | congruence].
    + intros _. eexists. split; reflexivity.
  - rewrite Hx.
    destruct (Z.eqb_spec (lm_ret lib (native_trace w) extended) 0)
      as [E | E]; split.
    + tauto.
    + congruence.
    + split; [discriminate | congruence].
    + intros _. eexists. split; reflexivity.
Qed.


Lemma send_reports_native_status_witness :
  (marquise_ctx sample_open = Some sample_ctx
   /\ fst (timestamp_or_now (Some 5) sample_world) = Ok 5
   /\ Cffi.safe_encode str_binary = Ok [97; 0; 195; 169; 98])
  /\ (exists e,
        fst (send_simple lib_exhausted sample_open 42 (Some 5) 7
               sample_world) = Raise e
        /\ class_of e = RuntimeError)
  /\ fst (send_extended lib_healthy sample_open 42 (Some 5) str_binary
            sample_world) = Ok true.
Proof.
  assert (H1 : marquise_ctx sample_open = Some sample_ctx) by reflexivity.
  assert (H2 : fst (timestamp_or_now (Some 5) sample_world) = Ok 5)
    by reflexivity.
  assert (H3 : Cffi.safe_encode str_binary = Ok [97; 0; 195; 169; 98])
    by reflexivity.
  split; [auto |]. split.
  - apply (send_reports_native_status lib_exhausted sample_open sample_ctx
             42 (Some 5) 5 7 str_binary [97; 0; 195; 169; 98] sample_world
             H1 H2 H3).
    vm_compute. discriminate.
  - apply (send_reports_native_status lib_healthy sample_open sample_ctx
             42 (Some 5) 5 7 str_binary [97; 0; 195; 169; 98] sample_world
             H1 H2 H3).
    reflexivity.
Defined.

(** C5: on an open context, [send_simple] and [send_extended] called
    with [timestamp = None] hand the native append
    [int(time.time() * 1000000000)] as the timestamp of the datapoint,
    and called with a timestamp (a uint64) hand over that timestamp. *)
Theorem timestamp_None_is_current_time
    lib self ctx address value text encoded w :
  marquise_ctx self = Some ctx ->
  Cffi.safe_encode text = Ok encoded ->
  (forall now,
      int_of_float (float_mul (time_time w) (float_of_int 1000000000))
      = Ok now ->
      0 <= now < 2 ^ 64 ->
      native_trace (snd (send_simple lib self address None value w))
      = native_trace w
        ++ [Call_send_simple (ctx_ptr ctx) (Cffi.cast_uint64 address)
              now (Cffi.cast_uint64 value)]
      /\ native_trace (snd (send_extended lib self address None text w))
         = native_trace w
           ++ [Call_send_extended (ctx_ptr ctx) (Cffi.cast_uint64 address)
                 now (encoded ++ [0])
                 (Cffi.cast_uint64 (Z.of_nat (length encoded)))])
  /\ (forall t,
         0 <= t < 2 ^ 64 ->
         native_trace (snd (send_simple lib self address (Some t) value w))
         = native_trace w
           ++ [Call_send_simple (ctx_ptr ctx) (Cffi.cast_uint64 address)
                 t (Cffi.cast_uint64 value)]
         /\ native_trace
              (snd (send_extended lib self address (Some t) text w))
            = native_trace w
              ++ [Call_send_extended (ctx_ptr ctx)
                    (Cffi.cast_uint64 address) t (encoded ++ [0])
                    (Cffi.cast_uint64 (Z.of_nat (length encoded)))]).
Proof.
  intros Hctx Henc. split.
  - intros now Hnow Hrange.
    assert (Ht : fst (timestamp_or_now None w) = Ok now) by exact Hnow.
    destruct (send_simple_open lib self ctx address None now value w
                Hctx Ht) as [_ Hs].
    destruct (send_extended_open lib self ctx address None now text encoded
                w Hctx Ht Henc) as [_ Hx].
    rewrite (cast_uint64_in_range now Hrange) in Hs, Hx. auto.
  - intros t Hrange.
    assert (Ht : fst (timestamp_or_now (Some t) w) = Ok t) by reflexivity.
    destruct (send_simple_open lib self ctx address (Some t) t value w
                Hctx Ht) as [_ Hs].
    destruct (send_extended_open lib self ctx address (Some t) t text
                encoded w Hctx Ht Henc) as [_ Hx].
    rewrite (cast_uint64_in_range t Hrange) in Hs, Hx. auto.
Qed.

Lemma timestamp_None_is_current_time_witness :
  (marquise_ctx sample_open = Some sample_ctx
   /\ Cffi.safe_encode str_binary = Ok [97; 0; 195; 169; 98])
  /\ native_trace
       (snd (send_simple lib_healthy sample_open 42 None 7 sample_world))
     = [Call_send_simple 4096 42 1700000000123453184 7]
  /\ native_trace
       (snd (send_extended lib_healthy sample_open 42 (Some 1234567890)
               str_binary sample_world))
     = [Call_send_extended 4096 42 1234567890 [97; 0; 195; 169; 98; 0] 5].
Proof.
  assert (H1 : marquise_ctx sample_open = Some sample_ctx) by reflexivity.
  assert (H2 : Cffi.safe_encode str_binary = Ok [97; 0; 195; 169; 98])
    by reflexivity.
  split; [auto |]. split.
  - apply (proj1 (timestamp_None_is_current_time lib_healthy sample_open
                    sample_ctx 42 7 str_binary [97; 0; 195; 169; 98]
                    sample_world H1 H2) 1700000000123453184).
    + reflexivity.
    + lia.
  - apply (proj2 (timestamp_None_is_current_time lib_healthy sample_open
                    sample_ctx 42 7 str_binary [97; 0; 195; 169; 98]
                    sample_world H1 H2) 1234567890).
    lia.
Defined.

(** C6: on an open context, for a value with UTF-8 encoding [encoded],
    [send_extended] hands the native append a buffer and a length such
    that the length is the number of bytes of [encoded] and the first
    that many bytes of the buffer are [encoded] itself, NUL and non-ASCII
    bytes included. *)
Theorem send_extended_passes_byte_length
    lib self ctx address timestamp t value encoded w :
  marquise_ctx self = Some ctx ->
  fst (timestamp_or_now timestamp w) = Ok t ->
  Cffi.safe_encode value = Ok encoded ->
  Z.of_nat (length encoded) < 2 ^ 64 ->
  exists buffer len,
    native_trace (snd (send_extended lib self address timestamp value w))
    = native_trace w
      ++ [Call_send_extended (ctx_ptr ctx) (Cffi.cast_uint64 address)
            (Cffi.cast_uint64 t) buffer len]
    /\ len = Z.of_nat (length encoded)
    /\ firstn (Z.to_nat len) buffer = encoded.
Proof.
  intros Hctx Ht Henc Hlen.
  destruct (send_extended_open lib self ctx address timestamp t value
              encoded w Hctx Ht Henc) as [_ Hx].
  exists (encoded ++ [0]), (Z.of_nat (length encoded)).
  rewrite (cast_uint64_in_range (Z.of_nat (length encoded))) in Hx by lia.
  split; [exact Hx |]. split; [reflexivity |].
  rewrite Nat2Z.id, firstn_app, Nat.sub_diag, firstn_all. cbn.
  apply app_nil_r.
Qed.

Lemma send_extended_passes_byte_length_witness :
  (marquise_ctx sample_open = Some sample_ctx
   /\ fst (timestamp_or_now (Some 5) sample_world) = Ok 5
   /\ Cffi.safe_encode str_binary = Ok [97; 0; 195; 169; 98]
   /\ Z.of_nat (length [97; 0; 195; 169; 98]) < 2 ^ 64)
  /\ exists buffer len,
      native_trace
        (snd (send_extended lib_healthy sample_open 42 (Some 5) str_binary
                sample_world))
      = native_trace sample_world
        ++ [Call_send_extended (ctx_ptr sample_ctx) (Cffi.cast_uint64 42)
              (Cffi.cast_uint64 5) buffer len]
      /\ len = Z.of_nat (length [97; 0; 195; 169; 98])
      /\ firstn (Z.to_nat len) buffer = [97; 0; 195; 169; 98].
Proof.
  assert (H1 : marquise_ctx sample_open = Some sample_ctx) by reflexivity.
  assert (H2 : fst (timestamp_or_now (Some 5) sample_world) = Ok 5)
    by reflexivity.
  assert (H3 : Cffi.safe_encode str_binary = Ok [97; 0; 195; 169; 98])
    by reflexivity.
  assert (H4 : Z.of_nat (length [97; 0; 195; 169; 98]) < 2 ^ 64)
    by reflexivity.
  split; [auto |].
  exact (send_extended_passes_byte_length lib_healthy sample_open sample_ctx
           42 (Some 5) 5 str_binary [97; 0; 195; 169; 98] sample_world
           H1 H2 H3 H4).
Defined.

(** ** hash_identifier *)

(** The hash is taken over as many bytes of the encoding as the string
    has code points. *)
Lemma hash_identifier_encoded lib identifier encoded :
  Cffi.safe_encode identifier = Ok encoded ->
  hash_identifier lib identifier
  = Ok (siphash lib (firstn (length identifier) (encoded ++ [0]))).
Proof.
  intros H. unfold hash_identifier.
  destruct (cstring_encoded identifier encoded H) as [Hc _].
  now rewrite Hc.
Qed.

(** C1, where the code departs from it: the identifier U+00E9 alone has
    the two-byte encoding C3 A9, but [len(identifier)] is 1, so the hash
    covers the byte C3 alone; U+00EB (encoded C3 AB) is therefore
    hashed to the same address whatever the hash function. *)
Theorem hash_identifier_non_ascii_prefix lib :
  Cffi.safe_encode [0xE9] = Ok [0xC3; 0xA9]
  /\ hash_identifier lib [0xE9] = Ok (siphash lib [0xC3])
  /\ Cffi.safe_encode [0xEB] = Ok [0xC3; 0xAB]
  /\ hash_identifier lib [0xEB] = hash_identifier lib [0xE9].
Proof. repeat split. Qed.

(** ** update_source and the source handle *)

Lemma count_free_app source t1 t2 :
  count_free source (t1 ++ t2)
  = (count_free source t1 + count_free source t2)%nat.
Proof.
  induction t1 as [|c t1 IH]; [reflexivity |].
  destruct c; cbn; try exact IH.
  destruct (source0 =? source); cbn; now rewrite IH.
Qed.

Lemma bind_except_TypeError_raised {A B C} e
    (k : B -> M A) (handler : M unit) (rest : A -> M C) w :
  (x <- except_TypeError_reraise (y <- lift (Raise e) ;; k y) handler ;;
   rest x) w
  = if exn_class_eqb (class_of e) TypeError then
      match handler w with
      | (Ok _, w') => (Raise e, w')
      | (Raise e', w') => (Raise e', w')
      end
    else (Raise e, w).
Proof.
  unfold bind, except_TypeError_reraise, lift.
  destruct (exn_class_eqb (class_of e) TypeError); [| reflexivity].
  destruct (handler w) as [[[] | e'] w']; reflexivity.
Qed.

(** [update_source] from the allocation of the source handle on. *)
Lemma update_source_allocated
    lib self ctx address metadata_dict c_fields c_values w :
  marquise_ctx self = Some ctx ->
  existsb is_None (keys metadata_dict) = false ->
  existsb is_None (values metadata_dict) = false ->
  mapM cstring_item (keys metadata_dict) = Ok c_fields ->
  mapM cstring_item (values metadata_dict) = Ok c_values ->
  let alloc := Call_new_source c_fields c_values
                 (Z.of_nat (length metadata_dict)) in
  let source := lm_ret lib (native_trace w) alloc in
  let free := Call_free_source source in
  source <> Cffi.NULL ->
  match Cffi.to_c_uint64 address with
  | Raise e =>
      fst (update_source lib self address metadata_dict w) = Raise e
      /\ native_trace (snd (update_source lib self address metadata_dict w))
         = native_trace w
           ++ (if exn_class_eqb (class_of e) TypeError then [alloc; free]
               else [alloc])
  | Ok c_address =>
      let update := Call_update_source (ctx_ptr ctx) c_address source in
      fst (update_source lib self address metadata_dict w)
      = (if lm_ret lib (native_trace w ++ [alloc]) update =? 0 then Ok true
         else Raise (UpdateSourceFailed
                       (lm_errno lib (native_trace w ++ [alloc; update])
                          free)))
      /\ native_trace (snd (update_source lib self address metadata_dict w))
         = native_trace w ++ [alloc; update; free]
  end.
Proof.
  intros Hctx Hk Hv Hf Hvs alloc source free Hsource.
  unfold update_source. rewrite Hctx, bind_debug, Hk, Hv, Hf, Hvs.
  cbn [except_Exception_raise lift bind].
  rewrite bind_native. autorewrite with world.
  fold alloc. fold source.
  replace (Cffi.is_cnull source) with false
    by (symmetry; apply Z.eqb_neq; exact Hsource).
  destruct (Cffi.to_c_uint64 address) as [c_address | e].
  - run_method. autorewrite with world. fold alloc. fold source. fold free.
    set (update := Call_update_source (ctx_ptr ctx) c_address source).
    rewrite bind_debug.
    destruct (lm_ret lib (native_trace w ++ [alloc]) update =? 0);
      run_method; autorewrite with world; run_method;
      rewrite <- !app_assoc; cbn [app]; auto.
  - rewrite bind_except_TypeError_raised.
    destruct (exn_class_eqb (class_of e) TypeError);
      run_method; autorewrite with world; fold alloc; fold source;
      rewrite <- ?app_assoc; auto.
Qed.

(** On the exits [update_source] provides for (the native update call
    returned, with status 0 or not, or converting its arguments raised a
    [TypeError]) the allocated handle is freed exactly once. *)
Lemma update_source_frees_once
    lib self ctx address metadata_dict c_fields c_values w :
  marquise_ctx self = Some ctx ->
  existsb is_None (keys metadata_dict) = false ->
  existsb is_None (values metadata_dict) = false ->
  mapM cstring_item (keys metadata_dict) = Ok c_fields ->
  mapM cstring_item (values metadata_dict) = Ok c_values ->
  let source := lm_ret lib (native_trace w)
                  (Call_new_source c_fields c_values
                     (Z.of_nat (length metadata_dict))) in
  source <> Cffi.NULL ->
  (forall e, Cffi.to_c_uint64 address = Raise e -> class_of e = TypeError) ->
  count_free source
    (native_trace (snd (update_source lib self address metadata_dict w)))
  = S (count_free source (native_trace w)).
Proof.
  intros Hctx Hk Hv Hf Hvs source Hsource Hexn.
  pose proof (update_source_allocated lib self ctx address metadata_dict
                c_fields c_values w Hctx Hk Hv Hf Hvs Hsource) as H.
  fold source in H.
  destruct (Cffi.to_c_uint64 address) as [c_address | e].
  - destruct H as [_ ->]. rewrite count_free_app. cbn.
    rewrite Z.eqb_refl. lia.
  - destruct H as [_ ->]. rewrite (Hexn e eq_refl), count_free_app. cbn.
    rewrite Z.eqb_refl. lia.
Qed.

(** C10, where the code departs from it: when the address is an int
    outside uint64, converting the arguments of the native update call
    raises an [OverflowError]; [except TypeError] does not catch it, and
    [update_source] is left with the source handle allocated and never
    handed to [marquise_free_source]. *)
Theorem update_source_leaks_on_OverflowError
    lib self ctx address metadata_dict c_fields c_values w :
  marquise_ctx self = Some ctx ->
  existsb is_None (keys metadata_dict) = false ->
  existsb is_None (values metadata_dict) = false ->
  mapM cstring_item (keys metadata_dict) = Ok c_fields ->
  mapM cstring_item (values metadata_dict) = Ok c_values ->
  let alloc := Call_new_source c_fields c_values
                 (Z.of_nat (length metadata_dict)) in
  let source := lm_ret lib (native_trace w) alloc in
  source <> Cffi.NULL ->
  Cffi.to_c_uint64 address = Raise CffiOverflowError ->
  fst (update_source lib self address metadata_dict w)
  = Raise CffiOverflowError
  /\ native_trace (snd (update_source lib self address metadata_dict w))
     = native_trace w ++ [alloc]
  /\ count_free source
       (native_trace (snd (update_source lib self address metadata_dict w)))
     = count_free source (native_trace w).
Proof.
  intros Hctx Hk Hv Hf Hvs alloc source Hsource Haddr.
  pose proof (update_source_allocated lib self ctx address metadata_dict
                c_fields c_values w Hctx Hk Hv Hf Hvs Hsource) as H.
  fold alloc in H. fold source in H. rewrite Haddr in H. cbn in H.
  destruct H as [Hres Htr]. rewrite Hres, Htr, count_free_app. cbn.
  repeat split. lia.
Qed.

Lemma update_source_leaks_on_OverflowError_witness :
  fst (update_source lib_healthy sample_open (PyInt (-1))
         [(Some str_k, Some str_v)] sample_world)
  = Raise CffiOverflowError
  /\ native_trace
       (snd (update_source lib_healthy sample_open (PyInt (-1))
               [(Some str_k, Some str_v)] sample_world))
     = [Call_new_source [[107; 0]] [[118; 0]] 1]
  /\ count_free 8192
       (native_trace
          (snd (update_source lib_healthy sample_open (PyInt (-1))
                  [(Some str_k, Some str_v)] sample_world)))
     = O.
Proof.
  refine (update_source_leaks_on_OverflowError lib_healthy sample_open
            sample_ctx (PyInt (-1)) [(Some str_k, Some str_v)]
            [[107; 0]] [[118; 0]] sample_world _ _ _ _ _ _ _);
    try reflexivity.
  vm_compute. discriminate.
Defined.

(** ** ASCII text across the C boundary *)

Lemma encode_ascii_text s :
  is_ascii_text s = true -> Utf8.encode s = Some s.
Proof.
  induction s as [|c s IH]; [reflexivity |].
  cbn [is_ascii_text forallb]. intros H.
  apply andb_prop in H as [Hc Hs]. apply andb_prop in Hc as [H0 H1].
  apply Z.ltb_lt in H0. cbn [Utf8.encode]. rewrite (IH Hs).
  unfold Utf8.encode_codepoint.
  replace (c <? 0) with false by (symmetry; apply Z.ltb_ge; lia).
  now rewrite H1.
Qed.

Lemma decode_ascii_text bs :
  is_ascii_text bs = true -> Utf8.decode bs = Some bs.
Proof.
  induction bs as [|b bs IH]; [reflexivity |].
  cbn [is_ascii_text forallb]. intros H.
  apply andb_prop in H as [Hb Hbs]. apply andb_prop in Hb as [H0 H1].
  apply Z.ltb_lt in H0. cbn [Utf8.decode]. rewrite (IH Hbs), H1.
  replace (0 <=? b) with true by (symmetry; apply Z.leb_le; lia).
  reflexivity.
Qed.

Lemma ffi_string_ascii_text bs rest :
  is_ascii_text bs = true -> Cffi.ffi_string (bs ++ 0 :: rest) = bs.
Proof.
  induction bs as [|b bs IH]; [reflexivity |].
  cbn [is_ascii_text forallb]. intros H.
  apply andb_prop in H as [Hb Hbs]. apply andb_prop in Hb as [H0 _].
  apply Z.ltb_lt in H0. cbn [app Cffi.ffi_string].
  replace (b =? 0) with false by (symmetry; apply Z.eqb_neq; lia).
  now rewrite (IH Hbs).
Qed.

Lemma is_ascii_text_app s1 s2 :
  is_ascii_text (s1 ++ s2) = is_ascii_text s1 && is_ascii_text s2.
Proof. apply forallb_app. Qed.

Lemma namespace_char_ascii c :
  Libmarquise.is_namespace_char c = true -> (0 <? c) && (c <? 0x80) = true.
Proof.
  unfold Libmarquise.is_namespace_char. intros H.
  apply andb_true_intro. rewrite Z.ltb_lt, Z.ltb_lt.
  apply orb_prop in H as [H | H]; apply andb_prop in H as [Hl Hh];
    apply Z.leb_le in Hl, Hh; lia.
Qed.

Lemma namespace_pattern_ascii namespace :
  namespace_pattern namespace = true -> is_ascii_text namespace = true.
Proof.
  unfold namespace_pattern, is_ascii_text.
  destruct namespace as [|c s]; [discriminate |].
  intros H. apply forallb_forall. intros x Hx.
  apply namespace_char_ascii.
  exact (proj1 (forallb_forall _ _) H x Hx).
Qed.

Lemma cstring_ascii_text s :
  is_ascii_text s = true -> Cffi.cstring s = Ok (s ++ [0]).
Proof.
  intros H. unfold Cffi.cstring, Cffi.safe_encode.
  now rewrite (encode_ascii_text s H).
Qed.

Lemma cprint_spool_path ns stream :
  is_ascii_text ns = true ->
  is_ascii_text stream = true ->
  Cffi.cprint (Libmarquise.build_spool_path ns stream ++ [0])
  = Ok (Libmarquise.build_spool_path ns stream).
Proof.
  intros Hns Hstream.
  assert (Hpath : is_ascii_text (Libmarquise.build_spool_path ns stream)
                  = true).
  { unfold Libmarquise.build_spool_path.
    rewrite !is_ascii_text_app, Hns, Hstream. reflexivity. }
  unfold Cffi.cprint, Cffi.safe_decode.
  rewrite (ffi_string_ascii_text _ [] Hpath).
  now rewrite (decode_ascii_text _ Hpath).
Qed.

Lemma spool_paths_distinct ns :
  Libmarquise.build_spool_path ns Libmarquise.stream_points
  <> Libmarquise.build_spool_path ns Libmarquise.stream_contents.
Proof.
  unfold Libmarquise.build_spool_path. intros H.
  repeat apply app_inv_head in H. discriminate H.
Qed.

(** ** Opening a context *)

Lemma init_valid_namespace lib namespace debug w :
  namespace_pattern namespace = true ->
  let call := Call_init (namespace ++ [0]) in
  fst (__init__ lib namespace debug w)
  = if Cffi.is_cnull (lm_ret lib (native_trace w) call) then
      if lm_errno lib (native_trace w) call =? EINVAL
      then Raise (InvalidNamespace namespace)
      else Raise (InitFailed (lm_errno lib (native_trace w) call))
    else
      Ok {| debug_enabled := debug;
            namespace_c := namespace ++ [0];
            marquise_ctx :=
              Some {| ctx_ptr := lm_ret lib (native_trace w) call;
                      ctx_spool_path_points :=
                        Libmarquise.build_spool_path namespace
                          Libmarquise.stream_points ++ [0];
                      ctx_spool_path_contents :=
                        Libmarquise.build_spool_path namespace
                          Libmarquise.stream_contents ++ [0] |};
            spool_path_points :=
              Libmarquise.build_spool_path namespace
                Libmarquise.stream_points;
            spool_path_contents :=
              Libmarquise.build_spool_path namespace
                Libmarquise.stream_contents |}.
Proof.
  intros Hvalid call.
  pose proof (namespace_pattern_ascii namespace Hvalid) as Hascii.
  unfold __init__. rewrite (cstring_ascii_text namespace Hascii).
  cbn [lift bind]. unfold marquise_init.
  rewrite (ffi_string_ascii_text namespace [] Hascii).
  change (Libmarquise.valid_namespace namespace)
    with (namespace_pattern namespace).
  rewrite Hvalid. unfold bind at 1. cbv beta.
  subst call. set (call := Call_init (namespace ++ [0])).
  destruct (Cffi.is_cnull (lm_ret lib (native_trace w) call)).
  - cbn [bind get_errno ffi_errno fst snd].
    destruct (lm_errno lib (native_trace w) call =? EINVAL); reflexivity.
  - cbn [ctx_spool_path_points ctx_spool_path_contents].
    rewrite !cprint_spool_path by (assumption || reflexivity).
    reflexivity.
Qed.

(** C9 as the code has it: for a namespace matching [[a-z0-9]+],
    opening succeeds whenever the native [marquise_init] returns a
    context, and the object then carries the two spool paths derived from
    the namespace, the points path and the contents path, which differ;
    when [marquise_init] returns NULL, opening raises instead: a
    [RuntimeError], or the invalid-namespace [ValueError] if the errno
    left behind is [EINVAL]. *)
Theorem open_valid_namespace lib namespace debug w :
  namespace_pattern namespace = true ->
  let call := Call_init (namespace ++ [0]) in
  (lm_ret lib (native_trace w) call <> Cffi.NULL ->
   exists self,
     fst (__init__ lib namespace debug w) = Ok self
     /\ marquise_ctx self <> None
     /\ spool_path_points self
        = Libmarquise.build_spool_path namespace Libmarquise.stream_points
     /\ spool_path_contents self
        = Libmarquise.build_spool_path namespace Libmarquise.stream_contents
     /\ spool_path_points self <> spool_path_contents self)
  /\ (lm_ret lib (native_trace w) call = Cffi.NULL ->
      fst (__init__ lib namespace debug w)
      = if lm_errno lib (native_trace w) call =? EINVAL
        then Raise (InvalidNamespace namespace)
        else Raise (InitFailed (lm_errno lib (native_trace w) call))).
Proof.
  intros Hvalid call.
  pose proof (init_valid_namespace lib namespace debug w Hvalid) as H.
  fold call in H. cbv zeta in H. split; intros Hret.
  - apply Z.eqb_neq in Hret. unfold Cffi.is_cnull in H. rewrite Hret in H.
    eexists. split; [exact H |]. cbn.
    repeat split; [discriminate | apply spool_paths_distinct].
  - apply Z.eqb_eq in Hret. unfold Cffi.is_cnull in H. rewrite Hret in H.
    exact H.
Qed.

Lemma open_valid_namespace_witness :
  namespace_pattern str_abc = true
  /\ (exists self,
        fst (__init__ lib_healthy str_abc false sample_world) = Ok self
        /\ marquise_ctx self <> None
        /\ spool_path_points self
           = Libmarquise.build_spool_path str_abc Libmarquise.stream_points
        /\ spool_path_contents self
           = Libmarquise.build_spool_path str_abc
               Libmarquise.stream_contents
        /\ spool_path_points self <> spool_path_contents self)
  /\ fst (__init__ lib_exhausted str_abc false sample_world)
     = Raise (InitFailed 12).
Proof.
  assert (H : namespace_pattern str_abc = true) by reflexivity.
  split; [exact H |]. split.
  - apply (proj1 (open_valid_namespace lib_healthy str_abc false
                    sample_world H)).
    vm_compute. discriminate.
  - apply (proj2 (open_valid_namespace lib_exhausted str_abc false
                    sample_world H)).
    reflexivity.
Defined.

(** C9 as stated fails: with a library whose [marquise_init] runs out of
    memory, opening the valid namespace "abc" raises a [RuntimeError]. *)
Lemma open_valid_namespace_can_fail :
  ~ (forall lib namespace debug w,
        namespace_pattern namespace = true ->
        exists self, fst (__init__ lib namespace debug w) = Ok self).
Proof.
  intros H.
  destruct (H lib_exhausted str_abc false sample_world eq_refl)
    as [self Hself].
  vm_compute in Hself. discriminate Hself.
Qed.

(** C7, where the code departs from it: the namespace "a\0", which is
    not in [[a-z0-9]+], is opened without error.  [marquise_init] is
    handed a [char *] and no length, reads "a", and the context spools
    for the namespace "a". *)
Theorem init_accepts_namespace_cut_at_NUL debug w :
  namespace_pattern [97; 0] = false
  /\ exists self,
      fst (__init__ lib_healthy [97; 0] debug w) = Ok self
      /\ namespace_c self = [97; 0; 0]
      /\ marquise_ctx self <> None
      /\ spool_path_points self
         = Libmarquise.build_spool_path [97] Libmarquise.stream_points
      /\ spool_path_contents self
         = Libmarquise.build_spool_path [97] Libmarquise.stream_contents.
Proof.
  split; [reflexivity |].
  eexists. split; [reflexivity |]. cbn.
  repeat split. discriminate.
Qed.

(** ** Where the namespace check does hold *)

Lemma Some_eq {A} (a b : A) : Some a = Some b -> a = b.
Proof. congruence. Qed.

Lemma cons_eq {A} (a b : A) l m : a :: l = b :: m -> a = b /\ l = m.
Proof. intros H. split; congruence. Qed.

Lemma encode_codepoint_no_NUL c bs :
  c <> 0 -> Utf8.encode_codepoint c = Some bs -> ~ In 0 bs.
Proof.
  unfold Utf8.encode_codepoint, Utf8.continuation. intros Hc H Hin.
  repeat match type of H with
         | (if ?b then _ else _) = _ => destruct b
         end;
    try discriminate; apply Some_eq in H; subst bs;
    repeat (destruct Hin as [Hin | Hin];
            [ first [ congruence
                    | apply Z.lor_eq_0_iff in Hin; destruct Hin;
                      discriminate ] | ]);
    destruct Hin.
Qed.

Lemma encode_no_NUL s : forall bs,
  ~ In 0 s -> Utf8.encode s = Some bs -> ~ In 0 bs.
Proof.
  induction s as [|c s IH]; intros bs Hs H.
  - injection H as <-. exact Hs.
  - cbn [Utf8.encode] in H.
    destruct (Utf8.encode_codepoint c) as [bc|] eqn:Hc; [| discriminate].
    destruct (Utf8.encode s) as [rest|]; [| discriminate].
    injection H as <-. intros Hin. apply in_app_or in Hin as [Hin | Hin].
    + apply (encode_codepoint_no_NUL c bc); auto.
      intros ->. apply Hs. now left.
    + apply (IH rest); auto. intros Hs'. apply Hs. now right.
Qed.

Lemma ffi_string_no_NUL bs rest :
  ~ In 0 bs -> Cffi.ffi_string (bs ++ 0 :: rest) = bs.
Proof.
  induction bs as [|b bs IH]; intros H; [reflexivity |].
  cbn [app Cffi.ffi_string].
  replace (b =? 0) with false
    by (symmetry; apply Z.eqb_neq; intros ->; apply H; now left).
  rewrite IH; [reflexivity |]. intros Hin. apply H. now right.
Qed.

Lemma namespace_char_bit7 b :
  Libmarquise.is_namespace_char b = true -> Z.testbit b 7 = false.
Proof.
  intros H. apply namespace_char_ascii in H.
  apply andb_prop in H as [H0 H1]. apply Z.ltb_lt in H0, H1.
  apply Z.bits_above_log2; [lia |].
  apply Z.log2_lt_pow2; [lia |]. exact H1.
Qed.

(** A byte of the namespace alphabet encodes itself and nothing else. *)
Lemma encode_codepoint_namespace_char c b bs :
  Utf8.encode_codepoint c = Some (b :: bs) ->
  Libmarquise.is_namespace_char b = true ->
  c = b /\ bs = [].
Proof.
  unfold Utf8.encode_codepoint. intros H Hb.
  apply namespace_char_bit7 in Hb.
  repeat match type of H with
         | (if ?b then _ else _) = _ => destruct b
         end;
    try discriminate; apply Some_eq in H; apply cons_eq in H as [<- <-];
    try (rewrite Z.lor_spec in Hb; discriminate Hb).
  auto.
Qed.

Lemma encode_namespace_chars s : forall bs,
  Utf8.encode s = Some bs ->
  forallb Libmarquise.is_namespace_char bs = true ->
  s = bs.
Proof.
  induction s as [|c s IH]; intros bs H Hbs.
  - now injection H as <-.
  - cbn [Utf8.encode] in H.
    destruct (Utf8.encode_codepoint c) as [bc|] eqn:Hc; [| discriminate].
    destruct (Utf8.encode s) as [rest|]; [| discriminate].
    injection H as <-.
    destruct bc as [|b bc].
    + exfalso. unfold Utf8.encode_codepoint in Hc.
      repeat match type of Hc with
             | (if ?b then _ else _) = _ => destruct b
             end; discriminate.
    + cbn [app forallb] in Hbs. apply andb_prop in Hbs as [Hb Hrest].
      destruct (encode_codepoint_namespace_char c b bc Hc Hb) as [-> ->].
      cbn [app] in *. f_equal. now apply IH.
Qed.

(** Every namespace outside [[a-z0-9]+] that has an encoding and no NUL
    in it is refused with the invalid-namespace [ValueError]. *)
Lemma init_rejects_invalid_namespace lib namespace encoded debug w :
  namespace_pattern namespace = false ->
  ~ In 0 namespace ->
  Cffi.safe_encode namespace = Ok encoded ->
  fst (__init__ lib namespace debug w) = Raise (InvalidNamespace namespace)
  /\ class_of (InvalidNamespace namespace) = ValueError.
Proof.
  intros Hinvalid Hnul Henc. split; [| reflexivity].
  destruct (cstring_encoded namespace encoded Henc) as [Hc _].
  unfold Cffi.safe_encode in Henc.
  destruct (Utf8.encode namespace) as [bs|] eqn:Hbs; [| discriminate].
  injection Henc as ->.
  unfold __init__. rewrite Hc. cbn [lift bind]. unfold marquise_init.
  rewrite (ffi_string_no_NUL encoded [])
    by (now apply (encode_no_NUL namespace)).
  assert (Hbad : Libmarquise.valid_namespace encoded = false).
  { destruct (Libmarquise.valid_namespace encoded) eqn:Hv; [| reflexivity].
    assert (Hall : forallb Libmarquise.is_namespace_char encoded = true).
    { destruct encoded; [discriminate | exact Hv]. }
    rewrite <- (encode_namespace_chars namespace encoded Hbs Hall) in Hv.
    change (Libmarquise.valid_namespace namespace)
      with (namespace_pattern namespace) in Hv.
    congruence. }
  rewrite Hbad. reflexivity.
Qed.

(** [hash_identifier] on ASCII identifiers, NUL included: the hash of
    the whole encoding. *)
Lemma hash_identifier_ascii lib identifier :
  forallb (fun c => (0 <=? c) && (c <? 0x80)) identifier = true ->
  Cffi.safe_encode identifier = Ok identifier
  /\ hash_identifier lib identifier = Ok (siphash lib identifier).
Proof.
  intros H.
  assert (Henc : Utf8.encode identifier = Some identifier).
  { induction identifier as [|c s IH]; [reflexivity |].
    cbn [forallb] in H. apply andb_prop in H as [Hc Hs].
    apply andb_prop in Hc as [H0 H1]. apply Z.leb_le in H0.
    cbn [Utf8.encode]. rewrite (IH Hs). unfold Utf8.encode_codepoint.
    replace (c <? 0) with false by (symmetry; apply Z.ltb_ge; lia).
    now rewrite H1. }
  assert (Hsafe : Cffi.safe_encode identifier = Ok identifier)
    by (unfold Cffi.safe_encode; now rewrite Henc).
  split; [exact Hsafe |].
  rewrite (hash_identifier_encoded lib identifier identifier Hsafe).
  now rewrite firstn_app, Nat.sub_diag, firstn_all, app_nil_r.
Qed.

(** * Further properties *)

(** ** The UTF-8 codec: decoding undoes encoding *)

Lemma lor_add_small a x m :
  0 <= m -> a mod 2 ^ m = 0 -> 0 <= x < 2 ^ m -> Z.lor a x = a + x.
Proof.
  intros Hm Ha Hx.
  assert (Hland : Z.land a x = 0).
  { rewrite <- (Z.mod_small x (2 ^ m)) by exact Hx.
    rewrite <- (Z.land_ones x m) by exact Hm.
    rewrite (Z.land_comm x), Z.land_assoc, (Z.land_ones a m) by exact Hm.
    rewrite Ha. apply Z.land_0_l. }
  pose proof (Z.add_lor_land a x) as H. rewrite Hland in H. lia.
Qed.

Lemma land_low x m : 0 <= m -> Z.land x (Z.ones m) = x mod 2 ^ m.
Proof. intros. now apply Z.land_ones. Qed.

Lemma continuation_arith c k :
  0 <= k -> Utf8.continuation c k = 128 + (c / 2 ^ k) mod 64.
Proof.
  intros Hk. unfold Utf8.continuation.
  rewrite Z.shiftr_div_pow2 by exact Hk.
  change 0x3F with (Z.ones 6). rewrite Z.land_ones by lia.
  change (2 ^ 6) with 64.
  apply (lor_add_small 128 _ 7); [lia | reflexivity |].
  pose proof (Z.mod_pos_bound (c / 2 ^ k) 64). change (2 ^ 7) with 128. lia.
Qed.

Lemma payload_continuation r :
  0 <= r < 64 -> Utf8.payload (128 + r) = r.
Proof.
  intros H. unfold Utf8.payload. change 0x3F with (Z.ones 6).
  rewrite Z.land_ones by lia. change (2 ^ 6) with 64.
  symmetry. apply (Z.mod_unique_pos _ _ 2); lia.
Qed.

Lemma land_lead K q m :
  0 <= m -> K mod 2 ^ m = 0 -> 0 <= q < 2 ^ m ->
  Z.land (K + q) (Z.ones m) = q.
Proof.
  intros Hm HK Hq. rewrite Z.land_ones by exact Hm.
  rewrite Z.add_comm, <- Zplus_mod_idemp_r, HK, Z.add_0_r.
  now apply Z.mod_small.
Qed.

Lemma lor_shiftl_small q r m :
  0 <= m -> 0 <= r < 2 ^ m -> Z.lor (Z.shiftl q m) r = q * 2 ^ m + r.
Proof.
  intros Hm Hr. rewrite Z.shiftl_mul_pow2 by exact Hm.
  apply (lor_add_small _ _ m); auto. apply Z.mod_mul. lia.
Qed.

Ltac bool_lia :=
  unfold Utf8.is_continuation, Utf8.is_surrogate;
  repeat rewrite ?andb_true_iff, ?andb_false_iff, ?negb_true_iff,
    ?negb_false_iff, ?Z.leb_le, ?Z.ltb_lt, ?Z.leb_gt, ?Z.ltb_ge;
  lia.

Ltac decide_if :=
  match goal with
  | |- context [if ?b then _ else _] =>
      first [ replace b with true by (symmetry; bool_lia)
            | replace b with false by (symmetry; bool_lia) ]
  end.

Lemma decode_one c rest :
  0 <= c < 0x80 ->
  Utf8.decode (c :: rest) = option_map (cons c) (Utf8.decode rest).
Proof. intros H. cbn [Utf8.decode]. decide_if. reflexivity. Qed.

Lemma decode_two q r rest :
  2 <= q < 32 -> 0 <= r < 64 ->
  Utf8.decode (192 + q :: 128 + r :: rest)
  = option_map (cons (q * 64 + r)) (Utf8.decode rest).
Proof.
  intros Hq Hr. cbn [Utf8.decode].
  rewrite (payload_continuation r Hr).
  change 0x1F with (Z.ones 5).
  rewrite (land_lead 192 q 5) by (try reflexivity; change (2 ^ 5) with 32; lia).
  rewrite (lor_shiftl_small q r 6) by (change (2 ^ 6) with 64; lia).
  change (2 ^ 6) with 64.
  repeat decide_if. reflexivity.
Qed.

Lemma decode_three q r1 r2 rest :
  0 <= q < 16 -> 0 <= r1 < 64 -> 0 <= r2 < 64 ->
  0x800 <= q * 4096 + r1 * 64 + r2 ->
  Utf8.is_surrogate (q * 4096 + r1 * 64 + r2) = false ->
  Utf8.decode (224 + q :: 128 + r1 :: 128 + r2 :: rest)
  = option_map (cons (q * 4096 + r1 * 64 + r2)) (Utf8.decode rest).
Proof.
  intros Hq Hr1 Hr2 Hlow Hsur. cbn [Utf8.decode]. cbv zeta.
  rewrite (payload_continuation r1 Hr1), (payload_continuation r2 Hr2).
  change 0x0F with (Z.ones 4).
  rewrite (land_lead 224 q 4) by (try reflexivity; change (2 ^ 4) with 16; lia).
  rewrite (lor_shiftl_small r1 r2 6) by (change (2 ^ 6) with 64; lia).
  rewrite (lor_shiftl_small q _ 12)
    by (change (2 ^ 6) with 64; change (2 ^ 12) with 4096; lia).
  change (2 ^ 6) with 64. change (2 ^ 12) with 4096.
  rewrite Z.add_assoc, Hsur.
  repeat decide_if. reflexivity.
Qed.

Lemma decode_four q r1 r2 r3 rest :
  0 <= q < 8 -> 0 <= r1 < 64 -> 0 <= r2 < 64 -> 0 <= r3 < 64 ->
  0x10000 <= q * 262144 + r1 * 4096 + r2 * 64 + r3 < 0x110000 ->
  Utf8.decode (240 + q :: 128 + r1 :: 128 + r2 :: 128 + r3 :: rest)
  = option_map (cons (q * 262144 + r1 * 4096 + r2 * 64 + r3))
      (Utf8.decode rest).
Proof.
  intros Hq Hr1 Hr2 Hr3 Hrange. cbn [Utf8.decode]. cbv zeta.
  rewrite (payload_continuation r1 Hr1), (payload_continuation r2 Hr2),
    (payload_continuation r3 Hr3).
  change 0x07 with (Z.ones 3).
  rewrite (land_lead 240 q 3) by (try reflexivity; change (2 ^ 3) with 8; lia).
  rewrite (lor_shiftl_small r2 r3 6) by (change (2 ^ 6) with 64; lia).
  rewrite (lor_shiftl_small r1 _ 12)
    by (change (2 ^ 6) with 64; change (2 ^ 12) with 4096; lia).
  rewrite (lor_shiftl_small q _ 18)
    by (change (2 ^ 6) with 64; change (2 ^ 12) with 4096;
        change (2 ^ 18) with 262144; lia).
  change (2 ^ 6) with 64. change (2 ^ 12) with 4096.
  change (2 ^ 18) with 262144.
  rewrite !Z.add_assoc.
  repeat decide_if. reflexivity.
Qed.

Lemma lead_arith K c k m :
  0 <= k -> 0 <= m -> K mod 2 ^ m = 0 -> 0 <= c / 2 ^ k < 2 ^ m ->
  Z.lor K (Z.shiftr c k) = K + c / 2 ^ k.
Proof.
  intros Hk Hm HK Hc. rewrite Z.shiftr_div_pow2 by exact Hk.
  now apply (lor_add_small K _ m).
Qed.

Lemma decode_encode_codepoint c bc rest :
  Utf8.encode_codepoint c = Some bc ->
  Utf8.decode (bc ++ rest) = option_map (cons c) (Utf8.decode rest).
Proof.
  unfold Utf8.encode_codepoint. intros H.
  destruct (Z.ltb_spec c 0) as [|H0]; [discriminate |].
  destruct (Z.ltb_spec c 0x80) as [|H1].
  { apply Some_eq in H. subst bc. apply decode_one. lia. }
  destruct (Z.ltb_spec c 0x800) as [|H2].
  { apply Some_eq in H. subst bc.
    rewrite (lead_arith 0xC0 c 6 6), (continuation_arith c 0)
      by (try reflexivity; try lia; change (2 ^ 6) with 64;
          Z.div_mod_to_equations; lia).
    change (2 ^ 6) with 64. change (2 ^ 0) with 1. rewrite Z.div_1_r.
    cbn [app]. rewrite decode_two by (Z.div_mod_to_equations; lia).
    do 2 f_equal. Z.div_mod_to_equations. lia. }
  destruct (Utf8.is_surrogate c) eqn:Hsur; [discriminate |].
  destruct (Z.ltb_spec c 0x10000) as [|H3].
  { apply Some_eq in H. subst bc.
    rewrite (lead_arith 0xE0 c 12 5), (continuation_arith c 6),
      (continuation_arith c 0)
      by (try reflexivity; try lia; change (2 ^ 12) with 4096;
          change (2 ^ 5) with 32; Z.div_mod_to_equations; lia).
    change (2 ^ 12) with 4096. change (2 ^ 6) with 64.
    change (2 ^ 0) with 1. rewrite Z.div_1_r.
    assert (Hc : c / 4096 * 4096 + c / 64 mod 64 * 64 + c mod 64 = c)
      by (Z.div_mod_to_equations; lia).
    cbn [app]. rewrite decode_three; rewrite ?Hc; auto;
      try (Z.div_mod_to_equations; lia). }
  destruct (Z.ltb_spec c 0x110000) as [|H4]; [| discriminate].
  apply Some_eq in H. subst bc.
  rewrite (lead_arith 0xF0 c 18 4), (continuation_arith c 12),
    (continuation_arith c 6), (continuation_arith c 0)
    by (try reflexivity; try lia; change (2 ^ 18) with 262144;
        change (2 ^ 4) with 16; Z.div_mod_to_equations; lia).
  change (2 ^ 18) with 262144. change (2 ^ 12) with 4096.
  change (2 ^ 6) with 64. change (2 ^ 0) with 1. rewrite Z.div_1_r.
  assert (Hc : c / 262144 * 262144 + c / 4096 mod 64 * 4096
               + c / 64 mod 64 * 64 + c mod 64 = c)
    by (Z.div_mod_to_equations; lia).
  cbn [app]. rewrite decode_four; rewrite ?Hc; auto;
    try (Z.div_mod_to_equations; lia).
Qed.

Lemma decode_encode s : forall bs,
  Utf8.encode s = Some bs -> Utf8.decode bs = Some s.
Proof.
  induction s as [|c s IH]; intros bs H.
  - apply Some_eq in H. now subst.
  - cbn [Utf8.encode] in H.
    destruct (Utf8.encode_codepoint c) as [bc|] eqn:Hc; [| discriminate].
    destruct (Utf8.encode s) as [rest|]; [| discriminate].
    apply Some_eq in H. subst bs.
    rewrite (decode_encode_codepoint c bc rest Hc), (IH rest eq_refl).
    reflexivity.
Qed.

(** ** cstring, cprint and len_cstring *)

Lemma ffi_string_app_no_NUL bc rest :
  ~ In 0 bc -> Cffi.ffi_string (bc ++ rest) = bc ++ Cffi.ffi_string rest.
Proof.
  induction bc as [|b bc IH]; intros H; [reflexivity |].
  cbn [app Cffi.ffi_string].
  replace (b =? 0) with false
    by (symmetry; apply Z.eqb_neq; intros ->; apply H; now left).
  rewrite IH; [reflexivity |]. intros Hin. apply H. now right.
Qed.

Lemma up_to_NUL_no_NUL s : ~ In 0 s -> up_to_NUL s = s.
Proof.
  induction s as [|c s IH]; intros H; [reflexivity |].
  cbn [up_to_NUL].
  replace (c =? 0) with false
    by (symmetry; apply Z.eqb_neq; intros ->; apply H; now left).
  rewrite IH; [reflexivity |]. intros Hin. apply H. now right.
Qed.

(** What C sees of an encoded string is the encoding of the string up to
    its first NUL character. *)
Lemma encode_up_to_NUL s : forall bs rest,
  Utf8.encode s = Some bs ->
  Utf8.encode (up_to_NUL s) = Some (Cffi.ffi_string (bs ++ 0 :: rest)).
Proof.
  induction s as [|c s IH]; intros bs rest H.
  - apply Some_eq in H. now subst bs.
  - cbn [Utf8.encode] in H.
    destruct (Utf8.encode_codepoint c) as [bc|] eqn:Hc; [| discriminate].
    destruct (Utf8.encode s) as [bs'|] eqn:Hs; [| discriminate].
    apply Some_eq in H. subst bs. cbn [up_to_NUL].
    destruct (Z.eqb_spec c 0) as [-> | Hnz].
    + cbn in Hc. apply Some_eq in Hc. subst bc. reflexivity.
    + cbn [Utf8.encode]. rewrite Hc, (IH bs' rest eq_refl).
      rewrite <- app_assoc, (ffi_string_app_no_NUL bc); [reflexivity |].
      now apply (encode_codepoint_no_NUL c).
Qed.

(** X1: for every string that has a UTF-8 encoding, [cprint] of the
    buffer [cstring] made from it gives back the string up to its first
    NUL character, hence the string itself when it holds no NUL. *)
Theorem cprint_cstring_round_trip s encoded :
  Cffi.safe_encode s = Ok encoded ->
  rbind (Cffi.cstring s) Cffi.cprint = Ok (up_to_NUL s)
  /\ (~ In 0 s -> rbind (Cffi.cstring s) Cffi.cprint = Ok s).
Proof.
  intros Henc.
  assert (H : rbind (Cffi.cstring s) Cffi.cprint = Ok (up_to_NUL s)).
  { destruct (cstring_encoded s encoded Henc) as [Hc _]. rewrite Hc.
    unfold Cffi.safe_encode in Henc.
    destruct (Utf8.encode s) as [bs|] eqn:Hbs; [| discriminate].
    injection Henc as ->.
    cbn [rbind]. unfold Cffi.cprint, Cffi.safe_decode.
    now rewrite (decode_encode _ _ (encode_up_to_NUL s encoded [] Hbs)). }
  split; [exact H |].
  intros Hnul. now rewrite H, (up_to_NUL_no_NUL s Hnul).
Qed.

Lemma cprint_cstring_round_trip_witness :
  Cffi.safe_encode str_binary = Ok [97; 0; 195; 169; 98]
  /\ rbind (Cffi.cstring str_binary) Cffi.cprint = Ok [97]
  /\ rbind (Cffi.cstring [0x20AC; 0x1F600; 0xE9])
       Cffi.cprint = Ok [0x20AC; 0x1F600; 0xE9].
Proof.
  split; [reflexivity |]. split.
  - exact (proj1 (cprint_cstring_round_trip str_binary
                    [97; 0; 195; 169; 98] eq_refl)).
  - apply (proj2 (cprint_cstring_round_trip [0x20AC; 0x1F600; 0xE9]
                    [226; 130; 172; 240; 159; 152; 128; 195; 169] eq_refl)).
    cbn. intros [H | [H | [H | H]]]; try discriminate H. exact H.
Defined.

Lemma encode_codepoint_length c bc :
  Utf8.encode_codepoint c = Some bc ->
  (1 <= length bc)%nat /\ (length bc = 1%nat <-> c < 0x80).
Proof.
  unfold Utf8.encode_codepoint. intros H.
  destruct (Z.ltb_spec c 0); [discriminate |].
  destruct (Z.ltb_spec c 0x80).
  { apply Some_eq in H. subst bc. cbn. split; [lia | tauto]. }
  repeat match type of H with
         | (if ?b then _ else _) = _ => destruct b
         end;
    try discriminate; apply Some_eq in H; subst bc; cbn [length];
    (split; [lia | split; intros; [discriminate | lia]]).
Qed.

Lemma encode_length s : forall bs,
  Utf8.encode s = Some bs ->
  (length s <= length bs)%nat
  /\ (length s = length bs <-> is_ascii s = true).
Proof.
  induction s as [|c s IH]; intros bs H.
  - apply Some_eq in H. subst bs. cbn. split; [lia | tauto].
  - cbn [Utf8.encode] in H.
    destruct (Utf8.encode_codepoint c) as [bc|] eqn:Hc; [| discriminate].
    destruct (Utf8.encode s) as [bs'|] eqn:Hs; [| discriminate].
    apply Some_eq in H. subst bs.
    destruct (encode_codepoint_length c bc Hc) as [H1 Hone].
    destruct (IH bs' eq_refl) as [Hle Heq].
    rewrite length_app. cbn [length is_ascii forallb].
    fold (is_ascii s). rewrite andb_true_iff, Z.ltb_lt.
    split; [lia |]. rewrite <- Hone, <- Heq. lia.
Qed.

(** X2: for a string with a UTF-8 encoding, [len_cstring] is the number
    of bytes of the buffer [cstring] makes, the terminating NUL not
    counted; it is never less than [len] of the string, and equal to it
    exactly when every character is ASCII. *)
Theorem len_cstring_counts_bytes s encoded :
  Cffi.safe_encode s = Ok encoded ->
  exists buffer,
    Cffi.cstring s = Ok buffer
    /\ Cffi.len_cstring s = Ok (Z.of_nat (length buffer) - 1)
    /\ Z.of_nat (length s) <= Z.of_nat (length buffer) - 1
    /\ (Z.of_nat (length s) = Z.of_nat (length buffer) - 1
        <-> is_ascii s = true).
Proof.
  intros Henc. destruct (cstring_encoded s encoded Henc) as [Hc Hl].
  exists (encoded ++ [0]). split; [exact Hc |].
  unfold Cffi.safe_encode in Henc.
  destruct (Utf8.encode s) as [bs|] eqn:Hbs; [| discriminate].
  injection Henc as ->.
  destruct (encode_length s encoded Hbs) as [Hle Heq].
  rewrite length_app. cbn [length].
  replace (Z.of_nat (length encoded + 1) - 1) with (Z.of_nat (length encoded))
    by lia.
  split; [exact Hl |]. split; [lia |].
  rewrite <- Heq. lia.
Qed.

Lemma len_cstring_counts_bytes_witness :
  Cffi.safe_encode str_binary = Ok [97; 0; 195; 169; 98]
  /\ exists buffer,
      Cffi.cstring str_binary = Ok buffer
      /\ Cffi.len_cstring str_binary = Ok (Z.of_nat (length buffer) - 1)
      /\ Z.of_nat (length str_binary) <= Z.of_nat (length buffer) - 1
      /\ (Z.of_nat (length str_binary) = Z.of_nat (length buffer) - 1
          <-> is_ascii str_binary = true).
Proof.
  split; [reflexivity |].
  exact (len_cstring_counts_bytes str_binary [97; 0; 195; 169; 98] eq_refl).
Defined.

(** X3: for an identifier with a UTF-8 encoding, [hash_identifier]
    returns the hash of the first [len(identifier)] bytes of the
    encoding, and these are the whole encoding exactly when every
    character of the identifier is ASCII. *)
Theorem hash_identifier_whole_iff_ascii lib identifier encoded :
  Cffi.safe_encode identifier = Ok encoded ->
  hash_identifier lib identifier
  = Ok (siphash lib (firstn (length identifier) encoded))
  /\ (firstn (length identifier) encoded = encoded
      <-> is_ascii identifier = true).
Proof.
  intros Henc.
  rewrite (hash_identifier_encoded lib identifier encoded Henc).
  unfold Cffi.safe_encode in Henc.
  destruct (Utf8.encode identifier) as [bs|] eqn:Hbs; [| discriminate].
  injection Henc as ->.
  destruct (encode_length identifier encoded Hbs) as [Hle Heq].
  split.
  - rewrite firstn_app.
    replace (length identifier - length encoded)%nat with O by lia.
    cbn [firstn]. now rewrite app_nil_r.
  - rewrite <- Heq. split.
    + intros H. apply (f_equal (@length Z)) in H.
      rewrite length_firstn in H. lia.
    + intros H. rewrite H. apply firstn_all.
Qed.

Lemma hash_identifier_whole_iff_ascii_witness :
  Cffi.safe_encode str_binary = Ok [97; 0; 195; 169; 98]
  /\ hash_identifier lib_healthy str_binary
     = Ok (siphash lib_healthy [97; 0; 195; 169])
  /\ hash_identifier lib_healthy str_abc
     = Ok (siphash lib_healthy [97; 98; 99]).
Proof.
  split; [reflexivity |]. split.
  - exact (proj1 (hash_identifier_whole_iff_ascii lib_healthy str_binary
                    [97; 0; 195; 169; 98] eq_refl)).
  - exact (proj1 (hash_identifier_whole_iff_ascii lib_healthy str_abc
                    [97; 98; 99] eq_refl)).
Defined.

(** ** What a method keeps: a small logic over the monad *)

Section Preserving.

Variable I : world -> world -> Prop.
Hypothesis I_refl : forall w, I w w.
Hypothesis I_trans : forall w1 w2 w3, I w1 w2 -> I w2 w3 -> I w1 w3.

Lemma preserves_ret {A} (a : A) : preserves I (ret a).
Proof. intros w. apply I_refl. Qed.

Lemma preserves_raise {A} e : preserves I (@raise A e).
Proof. intros w. apply I_refl. Qed.

Lemma preserves_lift {A} (r : result A) : preserves I (lift r).
Proof. intros w. apply I_refl. Qed.

Lemma preserves_get_errno : preserves I get_errno.
Proof. intros w. apply I_refl. Qed.

Lemma preserves_timestamp_or_now timestamp :
  preserves I (timestamp_or_now timestamp).
Proof. intros w. rewrite timestamp_or_now_world. apply I_refl. Qed.

Lemma preserves_bind {A B} (m : M A) (k : A -> M B) :
  preserves I m -> (forall a, preserves I (k a)) -> preserves I (bind m k).
Proof.
  intros Hm Hk w. unfold bind. specialize (Hm w).
  destruct (m w) as [[a | e] w']; cbn in *; [| exact Hm].
  eapply I_trans; [exact Hm | apply Hk].
Qed.

Lemma preserves_except_TypeError {A} (body : M A) handler :
  preserves I body -> preserves I handler ->
  preserves I (except_TypeError_reraise body handler).
Proof.
  intros Hb Hh w. unfold except_TypeError_reraise. specialize (Hb w).
  destruct (body w) as [[a | e] w']; cbn in *; [exact Hb |].
  destruct (exn_class_eqb (class_of e) TypeError); [| exact Hb].
  specialize (Hh w'). destruct (handler w') as [[u | e'] w'']; cbn in *;
    eapply I_trans; eauto.
Qed.

Variable lib : libmarquise.
Variable self : Marquise.
Variable P : native_call -> Prop.
Hypothesis I_native : forall call, P call -> preserves I (native lib call).
Hypothesis I_debug : forall msg, preserves I (__debug self msg).

Ltac preserving :=
  repeat first
    [ apply preserves_ret | apply preserves_raise | apply preserves_lift
    | apply preserves_get_errno | apply preserves_timestamp_or_now
    | apply I_debug
    | apply preserves_bind; [| intro]
    | apply preserves_except_TypeError
    | match goal with
      | |- preserves _ (if ?b then _ else _) => destruct b
      end
    | apply I_native ].

Lemma send_simple_preserves address timestamp value :
  (forall ctx a t v,
      marquise_ctx self = Some ctx ->
      P (Call_send_simple (ctx_ptr ctx) a t v)) ->
  preserves I (send_simple lib self address timestamp value).
Proof.
  intros HP. unfold send_simple.
  destruct (marquise_ctx self) as [ctx|] eqn:Hctx; preserving.
  now apply HP.
Qed.

Lemma send_extended_preserves address timestamp value :
  (forall ctx a t v n,
      marquise_ctx self = Some ctx ->
      P (Call_send_extended (ctx_ptr ctx) a t v n)) ->
  preserves I (send_extended lib self address timestamp value).
Proof.
  intros HP. unfold send_extended.
  destruct (marquise_ctx self) as [ctx|] eqn:Hctx; preserving.
  now apply HP.
Qed.

Lemma update_source_preserves address metadata_dict :
  (forall fields vals n, P (Call_new_source fields vals n)) ->
  (forall source, P (Call_free_source source)) ->
  (forall ctx a source,
      marquise_ctx self = Some ctx ->
      P (Call_update_source (ctx_ptr ctx) a source)) ->
  preserves I (update_source lib self address metadata_dict).
Proof.
  intros Hnew Hfree Hupd. unfold update_source.
  destruct (marquise_ctx self) as [ctx|] eqn:Hctx; preserving; auto.
Qed.

End Preserving.

(** ** Debugging switched off: nothing is printed *)

Lemma native_keeps_stdout lib call :
  preserves (fun w w' => stdout w' = stdout w) (native lib call).
Proof. intros w. reflexivity. Qed.

Lemma quiet_debug self msg :
  debug_enabled self = false ->
  preserves (fun w w' => stdout w' = stdout w) (__debug self msg).
Proof. intros H w. unfold __debug. now rewrite H. Qed.

Lemma invoke_quiet lib self c w :
  debug_enabled self = false ->
  debug_enabled (snd (fst (invoke lib self c w))) = false
  /\ stdout (snd (invoke lib self c w)) = stdout w.
Proof.
  intros Hq.
  assert (Hrefl : forall w0 : world, stdout w0 = stdout w0) by reflexivity.
  assert (Htrans : forall w1 w2 w3 : world,
             stdout w2 = stdout w1 -> stdout w3 = stdout w2 ->
             stdout w3 = stdout w1) by (intros; congruence).
  assert (Hwrite : forall m : M bool,
             preserves (fun w w' => stdout w' = stdout w) m ->
             debug_enabled
               (snd (fst (match m w with
                          | (Ok b, w') => (Ok (Some b), self, w')
                          | (Raise e, w') => (Raise e, self, w')
                          end))) = false
             /\ stdout
                  (snd (match m w with
                        | (Ok b, w') => (Ok (Some b), self, w')
                        | (Raise e, w') => (Raise e, self, w')
                        end)) = stdout w).
  { intros m Hm. specialize (Hm w).
    destruct (m w) as [[b | e] w']; cbn in *; auto. }
  destruct c; cbn [invoke].
  - unfold close, __debug. rewrite Hq.
    destruct (marquise_ctx self); cbn; auto.
  - apply Hwrite.
    apply (send_simple_preserves _ Hrefl Htrans lib self (fun _ => True));
      auto using native_keeps_stdout, quiet_debug.
  - apply Hwrite.
    apply (send_extended_preserves _ Hrefl Htrans lib self (fun _ => True));
      auto using native_keeps_stdout, quiet_debug.
  - apply Hwrite.
    apply (update_source_preserves _ Hrefl Htrans lib self (fun _ => True));
      auto using native_keeps_stdout, quiet_debug.
Qed.

(** X4: on an object created with [debug=False], no sequence of calls
    of [close], [send_simple], [send_extended] and [update_source],
    succeeding or failing, prints anything. *)
Theorem no_debug_no_output lib self calls : forall w,
  debug_enabled self = false ->
  stdout (snd (session_end lib self calls w)) = stdout w.
Proof.
  revert self. induction calls as [|c calls IH]; intros self w Hq.
  - reflexivity.
  - cbn [session_end].
    destruct (invoke_quiet lib self c w Hq) as [Hq' Hout].
    destruct (invoke lib self c w) as [[r self'] w']. cbn in Hq', Hout.
    rewrite (IH self' w' Hq'). exact Hout.
Qed.

Lemma no_debug_no_output_witness :
  debug_enabled (with_debug false sample_open) = false
  /\ stdout
       (snd (session_end lib_exhausted (with_debug false sample_open)
               [Do_send_simple 1 None 2;
                Do_update_source (PyInt 5) [(Some str_k, Some str_v)];
                Do_close; Do_close; Do_send_extended 1 (Some 2) str_abc]
               sample_world))
     = stdout sample_world.
Proof.
  split; [reflexivity |].
  exact (no_debug_no_output lib_exhausted (with_debug false sample_open)
           _ sample_world eq_refl).
Defined.

(** ** The native handle over the life of a context *)

Lemma extended_by_refl P w : extended_by P w w.
Proof. exists []. split; [now rewrite app_nil_r | constructor]. Qed.

Lemma extended_by_trans P w1 w2 w3 :
  extended_by P w1 w2 -> extended_by P w2 w3 -> extended_by P w1 w3.
Proof.
  intros (a1 & H1 & F1) (a2 & H2 & F2). exists (a1 ++ a2). split.
  - now rewrite H2, H1, app_assoc.
  - apply Forall_app. now split.
Qed.

Lemma native_extended_by lib (P : native_call -> Prop) call :
  P call -> preserves (extended_by P) (native lib call).
Proof. intros H w. exists [call]. split; [reflexivity | now constructor]. Qed.

Lemma debug_extended_by P self msg :
  preserves (extended_by P) (__debug self msg).
Proof.
  intros w. exists []. rewrite debug_trace, app_nil_r. split; constructor.
Qed.

(** A write method on the context at [p] only makes write calls on [p]. *)
Lemma write_extends lib self ctx c w :
  marquise_ctx self = Some ctx ->
  is_write c = true ->
  snd (fst (invoke lib self c w)) = self
  /\ extended_by (fun call => write_call (ctx_ptr ctx) call = true)
       w (snd (invoke lib self c w)).
Proof.
  intros Hctx Hw.
  set (P := fun call => write_call (ctx_ptr ctx) call = true).
  assert (Hwrite : forall m : M bool,
             preserves (extended_by P) m ->
             snd (fst (match m w with
                       | (Ok b, w') => (Ok (Some b), self, w')
                       | (Raise e, w') => (Raise e, self, w')
                       end)) = self
             /\ extended_by P w
                  (snd (match m w with
                        | (Ok b, w') => (Ok (Some b), self, w')
                        | (Raise e, w') => (Raise e, self, w')
                        end))).
  { intros m Hm. specialize (Hm w).
    destruct (m w) as [[b | e] w']; cbn in *; auto. }
  assert (Hp : forall ctx', marquise_ctx self = Some ctx' ->
                            (ctx_ptr ctx' =? ctx_ptr ctx) = true).
  { intros ctx' H. rewrite Hctx in H. injection H as <-. apply Z.eqb_refl. }
  destruct c; try discriminate; cbn [invoke]; apply Hwrite.
  - apply (send_simple_preserves _ (extended_by_refl P)
             (extended_by_trans P) lib self P);
      auto using native_extended_by, debug_extended_by.
    intros ctx' a t v H. exact (Hp ctx' H).
  - apply (send_extended_preserves _ (extended_by_refl P)
             (extended_by_trans P) lib self P);
      auto using native_extended_by, debug_extended_by.
    intros ctx' a t v n H. exact (Hp ctx' H).
  - apply (update_source_preserves _ (extended_by_refl P)
             (extended_by_trans P) lib self P);
      auto using native_extended_by, debug_extended_by;
      try (intros; reflexivity).
    intros ctx' a source H. exact (Hp ctx' H).
Qed.

(** A closed context never reaches the native library again. *)
Lemma session_end_closed lib self calls : forall w,
  marquise_ctx self = None ->
  native_trace (snd (session_end lib self calls w)) = native_trace w.
Proof.
  revert self. induction calls as [|c calls IH]; intros self w Hctx.
  - reflexivity.
  - cbn [session_end].
    pose proof (invoke_closed lib self c w Hctx) as Hnext.
    assert (Htr : native_trace (snd (invoke lib self c w)) = native_trace w).
    { destruct c.
      - cbn [invoke].
        destruct (close_closed lib self w Hctx) as (Hok & Ht & _).
        destruct (close lib self w) as [[s' | e] w']; cbn in *; exact Ht.
      - now rewrite write_closed.
      - now rewrite write_closed.
      - now rewrite write_closed. }
    destruct (invoke lib self c w) as [[r self'] w']. cbn in Hnext, Htr.
    now rewrite (IH self' w' Hnext).
Qed.

Lemma handle_discipline_app p a1 a2 :
  Forall (fun call => write_call p call = true) a1 ->
  handle_discipline p a2 = true ->
  handle_discipline p (a1 ++ a2) = true.
Proof.
  intros H1 H2. induction H1 as [|c a1 Hc _ IH]; [exact H2 |].
  cbn [app]. destruct c; try discriminate Hc; cbn [handle_discipline];
    rewrite Hc, IH; reflexivity.
Qed.

(** X5: over any sequence of method calls on an open context, every
    native call that takes a context is given the pointer the object
    holds, [marquise_init] is not called again, and [marquise_shutdown]
    is called at most once, on that pointer, with no native call after
    it. *)
Theorem session_keeps_handle_discipline lib self ctx calls : forall w,
  marquise_ctx self = Some ctx ->
  exists added,
    native_trace (snd (session_end lib self calls w))
    = native_trace w ++ added
    /\ handle_discipline (ctx_ptr ctx) added = true.
Proof.
  induction calls as [|c calls IH]; intros w Hctx.
  - exists []. now rewrite app_nil_r.
  - cbn [session_end]. destruct (is_write c) eqn:Hw.
    + destruct (write_extends lib self ctx c w Hctx Hw)
        as (Hself & a1 & Ha1 & F1).
      destruct (invoke lib self c w) as [[r self'] w']. cbn in Hself, Ha1.
      subst self'. destruct (IH w' Hctx) as (a2 & Ha2 & D2).
      exists (a1 ++ a2). split.
      * now rewrite Ha2, Ha1, app_assoc.
      * now apply handle_discipline_app.
    + destruct c; try discriminate Hw. cbn [invoke].
      unfold close. rewrite Hctx, bind_debug. cbn [bind native ret fst snd].
      exists [Call_shutdown (ctx_ptr ctx)]. split.
      * rewrite session_end_closed by reflexivity. cbn [native_trace].
        now rewrite debug_trace.
      * cbn. now rewrite Z.eqb_refl.
Qed.

Lemma session_keeps_handle_discipline_witness :
  marquise_ctx sample_open = Some sample_ctx
  /\ exists added,
      native_trace
        (snd (session_end lib_healthy sample_open
                [Do_send_simple 1 (Some 2) 3;
                 Do_update_source (PyInt 5) [(Some str_k, Some str_v)];
                 Do_close; Do_send_simple 1 (Some 2) 3; Do_close]
                sample_world))
      = native_trace sample_world ++ added
      /\ handle_discipline (ctx_ptr sample_ctx) added = true.
Proof.
  split; [reflexivity |].
  exact (session_keeps_handle_discipline lib_healthy sample_open sample_ctx
           _ sample_world eq_refl).
Defined.

(** ** Debugging changes nothing but the output *)

Lemma same_but_stdout_refl w : same_but_stdout w w.
Proof. repeat split. Qed.

Lemma agree_ret {A} (a : A) : agree (ret a) (ret a).
Proof. intros w1 w2 H. now split. Qed.

Lemma agree_raise {A} e : agree (@raise A e) (raise e).
Proof. intros w1 w2 H. now split. Qed.

Lemma agree_lift {A} (r : result A) : agree (lift r) (lift r).
Proof. intros w1 w2 H. now split. Qed.

Lemma agree_get_errno : agree get_errno get_errno.
Proof. intros w1 w2 H. split; [cbn; f_equal; apply H | exact H]. Qed.

Lemma agree_timestamp_or_now timestamp :
  agree (timestamp_or_now timestamp) (timestamp_or_now timestamp).
Proof.
  intros w1 w2 H. rewrite !timestamp_or_now_world. split; [| exact H].
  apply timestamp_or_now_clock. apply H.
Qed.

Lemma agree_native lib call : agree (native lib call) (native lib call).
Proof.
  intros w1 w2 (Ht & He & Hc). unfold native, same_but_stdout. cbn.
  now rewrite Ht, Hc.
Qed.

Lemma agree_debug s1 s2 msg1 msg2 :
  agree (__debug s1 msg1) (__debug s2 msg2).
Proof.
  intros w1 w2 (Ht & He & Hc). unfold same_but_stdout.
  autorewrite with world.
  destruct (debug_keeps_trace s1 msg1 w1) as (-> & _).
  destruct (debug_keeps_trace s2 msg2 w2) as (-> & _). auto.
Qed.

Lemma agree_bind {A B} (m1 m2 : M A) (k1 k2 : A -> M B) :
  agree m1 m2 -> (forall a, agree (k1 a) (k2 a)) ->
  agree (bind m1 k1) (bind m2 k2).
Proof.
  intros Hm Hk w1 w2 H. unfold bind. destruct (Hm w1 w2 H) as [Hr Hw].
  destruct (m1 w1) as [r1 w1'], (m2 w2) as [r2 w2']. cbn in Hr, Hw.
  subst r2. destruct r1 as [a | e]; [now apply Hk | now split].
Qed.

Lemma agree_except_TypeError {A} (b1 b2 : M A) h1 h2 :
  agree b1 b2 -> agree h1 h2 ->
  agree (except_TypeError_reraise b1 h1) (except_TypeError_reraise b2 h2).
Proof.
  intros Hb Hh w1 w2 H. unfold except_TypeError_reraise.
  destruct (Hb w1 w2 H) as [Hr Hw].
  destruct (b1 w1) as [r1 w1'], (b2 w2) as [r2 w2']. cbn in Hr, Hw.
  subst r2. destruct r1 as [a | e]; [now split |].
  destruct (exn_class_eqb (class_of e) TypeError); [| now split].
  destruct (Hh w1' w2' Hw) as [Hr' Hw'].
  destruct (h1 w1') as [r1 w1''], (h2 w2') as [r2 w2'']. cbn in Hr', Hw'.
  subst r2. destruct r1; now split.
Qed.

Ltac agreeing :=
  repeat first
    [ apply agree_ret | apply agree_raise | apply agree_lift
    | apply agree_get_errno | apply agree_timestamp_or_now
    | apply agree_debug | apply agree_native
    | apply agree_bind; [| intro]
    | apply agree_except_TypeError
    | match goal with
      | |- agree (if ?b then _ else _) (if ?b then _ else _) => destruct b
      end ].

(** Each method on two objects that differ in [debug_enabled] only. *)
Lemma invoke_agrees lib s1 s2 c w1 w2 :
  same_but_debug s1 s2 ->
  same_but_stdout w1 w2 ->
  fst (fst (invoke lib s1 c w1)) = fst (fst (invoke lib s2 c w2))
  /\ same_but_debug (snd (fst (invoke lib s1 c w1)))
       (snd (fst (invoke lib s2 c w2)))
  /\ same_but_stdout (snd (invoke lib s1 c w1)) (snd (invoke lib s2 c w2)).
Proof.
  intros Hs Hw. pose proof Hs as (Hn & Hctx & Hp & Hc).
  assert (Hwrite : forall m1 m2 : M bool,
             agree m1 m2 ->
             let run (self : Marquise) (m : M bool) (w : world) :=
               match m w with
               | (Ok b, w') => (Ok (Some b), self, w')
               | (Raise e, w') => (Raise e, self, w')
               end in
             fst (fst (run s1 m1 w1)) = fst (fst (run s2 m2 w2))
             /\ same_but_debug (snd (fst (run s1 m1 w1)))
                  (snd (fst (run s2 m2 w2)))
             /\ same_but_stdout (snd (run s1 m1 w1)) (snd (run s2 m2 w2))).
  { intros m1 m2 Hm. cbv zeta. destruct (Hm w1 w2 Hw) as [Hr Hw'].
    destruct (m1 w1) as [r1 w1'], (m2 w2) as [r2 w2']. cbn in Hr, Hw'.
    subst r2. destruct r1; cbn; auto. }
  destruct c; cbn [invoke].
  - unfold close. rewrite <- Hctx.
    destruct (marquise_ctx s1) as [ctx|] eqn:Hctx1; rewrite !bind_debug.
    + destruct (agree_debug s1 s2
                  (Dbg_shutting_down (spool_path_points s1)
                     (spool_path_contents s1))
                  (Dbg_shutting_down (spool_path_points s2)
                     (spool_path_contents s2)) w1 w2 Hw) as [_ Hw'].
      destruct (agree_native lib (Call_shutdown (ctx_ptr ctx)) _ _ Hw')
        as [_ Hw''].
      cbn [bind native ret fst snd] in *.
      repeat split; cbn; auto; apply Hw''.
    + destruct (agree_debug s1 s2 Dbg_already_closed Dbg_already_closed
                  w1 w2 Hw) as [_ Hw'].
      cbn [bind ret fst snd]. repeat split; auto; try apply Hw'.
      congruence.
  - apply Hwrite. unfold send_simple. rewrite <- Hctx.
    destruct (marquise_ctx s1); agreeing.
  - apply Hwrite. unfold send_extended. rewrite <- Hctx.
    destruct (marquise_ctx s1); agreeing.
  - apply Hwrite. unfold update_source. rewrite <- Hctx.
    destruct (marquise_ctx s1); agreeing.
Qed.

(** X6: the [debug] flag changes nothing but what is printed: over any
    sequence of method calls a context gives the same results and makes
    the same native calls, leaving the same [FFI.errno], with debugging
    on or off. *)
Theorem debug_changes_only_output lib debug self calls w :
  session lib (with_debug debug self) calls w = session lib self calls w
  /\ native_trace (snd (session_end lib (with_debug debug self) calls w))
     = native_trace (snd (session_end lib self calls w))
  /\ ffi_errno (snd (session_end lib (with_debug debug self) calls w))
     = ffi_errno (snd (session_end lib self calls w)).
Proof.
  assert (Hgen : forall calls s1 s2 w1 w2,
             same_but_debug s1 s2 -> same_but_stdout w1 w2 ->
             session lib s1 calls w1 = session lib s2 calls w2
             /\ same_but_stdout (snd (session_end lib s1 calls w1))
                  (snd (session_end lib s2 calls w2))).
  { clear. induction calls as [|c calls IH]; intros s1 s2 w1 w2 Hs Hw.
    - now split.
    - cbn [session session_end].
      destruct (invoke_agrees lib s1 s2 c w1 w2 Hs Hw) as (Hr & Hs' & Hw').
      destruct (invoke lib s1 c w1) as [[r1 s1'] w1'].
      destruct (invoke lib s2 c w2) as [[r2 s2'] w2'].
      cbn in Hr, Hs', Hw'. subst r2.
      destruct (IH s1' s2' w1' w2' Hs' Hw') as [Hrs Hws].
      split; [now f_equal | exact Hws]. }
  destruct (Hgen calls (with_debug debug self) self w w) as [Hr (Ht & He & _)].
  - repeat split.
  - apply same_but_stdout_refl.
  - auto.
Qed.

(** ** update_source: validation, allocation, release *)

Lemma mapM_cstring_item items : forall buffers,
  mapM cstring_item items = Ok buffers ->
  Forall2 (fun item buffer =>
             exists s encoded,
               item = Some s
               /\ Cffi.safe_encode s = Ok encoded
               /\ buffer = encoded ++ [0])
          items buffers.
Proof.
  induction items as [|item items IH]; intros buffers H.
  - injection H as <-. constructor.
  - cbn [mapM] in H.
    destruct (cstring_item item) as [b | e] eqn:Hitem; [| discriminate].
    destruct (mapM cstring_item items) as [bs | e]; [| discriminate].
    injection H as <-. constructor; [| now apply IH].
    destruct item as [s|]; [| discriminate]. cbn in Hitem.
    unfold Cffi.cstring in Hitem.
    destruct (Cffi.safe_encode s) as [enc | e] eqn:Henc; [| discriminate].
    cbn in Hitem. exists s, enc.
    split; [reflexivity |]. split; [exact Henc |].
    unfold Cffi.ffi_new_chars in Hitem. congruence.
Qed.

Lemma mapM_cstring_item_fails items s :
  In (Some s) items ->
  Utf8.encode s = None ->
  exists e, mapM cstring_item items = Raise e.
Proof.
  intros Hin Hs. induction items as [|item items IH]; [destruct Hin |].
  cbn [mapM]. destruct (cstring_item item) as [b | e] eqn:Hitem;
    [| now exists e].
  destruct Hin as [-> | Hin].
  - cbn in Hitem. unfold Cffi.cstring, Cffi.safe_encode in Hitem.
    rewrite Hs in Hitem. discriminate.
  - destruct (IH Hin) as [e ->]. now exists e.
Qed.

(** X7: on an open context, a [metadata_dict] without [None] in which
    some key or value is a string that has no UTF-8 encoding makes
    [update_source] raise a [TypeError] before any native call. *)
Theorem update_source_rejects_unencodable
    lib self address metadata_dict s w :
  marquise_ctx self <> None ->
  ~ In None (keys metadata_dict) ->
  ~ In None (values metadata_dict) ->
  In (Some s) (keys metadata_dict) \/ In (Some s) (values metadata_dict) ->
  Utf8.encode s = None ->
  exists e,
    fst (update_source lib self address metadata_dict w) = Raise e
    /\ class_of e = TypeError
    /\ native_trace (snd (update_source lib self address metadata_dict w))
       = native_trace w
    /\ ffi_errno (snd (update_source lib self address metadata_dict w))
       = ffi_errno w.
Proof.
  intros Hopen Hk Hv Hin Hs. unfold update_source.
  destruct (marquise_ctx self) as [ctx|]; [| congruence].
  rewrite bind_debug.
  destruct (existsb is_None (keys metadata_dict)) eqn:Ek;
    [apply existsb_is_None in Ek; contradiction |].
  destruct (existsb is_None (values metadata_dict)) eqn:Ev;
    [apply existsb_is_None in Ev; contradiction |].
  destruct (mapM cstring_item (keys metadata_dict)) as [fields | e] eqn:Hf.
  - destruct Hin as [Hin | Hin].
    + destruct (mapM_cstring_item_fails _ s Hin Hs) as [e He]. congruence.
    + destruct (mapM_cstring_item_fails _ s Hin Hs) as [e He].
      rewrite He. exists (ValueCastFailed e). run_method.
      autorewrite with world. auto.
  - exists (KeyCastFailed e). run_method. autorewrite with world. auto.
Qed.

Lemma update_source_rejects_unencodable_witness :
  exists e,
    fst (update_source lib_healthy sample_open (PyInt 5)
           [(Some str_k, Some [0xD800])] sample_world) = Raise e
    /\ class_of e = TypeError
    /\ native_trace
         (snd (update_source lib_healthy sample_open (PyInt 5)
                 [(Some str_k, Some [0xD800])] sample_world))
       = native_trace sample_world
    /\ ffi_errno
         (snd (update_source lib_healthy sample_open (PyInt 5)
                 [(Some str_k, Some [0xD800])] sample_world))
       = ffi_errno sample_world.
Proof.
  apply (update_source_rejects_unencodable lib_healthy sample_open (PyInt 5)
           [(Some str_k, Some [0xD800])] [0xD800] sample_world).
  - discriminate.
  - cbn. intros [H | H]; [discriminate H | exact H].
  - cbn. intros [H | H]; [discriminate H | exact H].
  - right. left. reflexivity.
  - reflexivity.
Defined.

(** [update_source] up to the allocation of the source handle. *)
Lemma update_source_before_alloc
    lib self ctx address metadata_dict c_fields c_values w :
  marquise_ctx self = Some ctx ->
  existsb is_None (keys metadata_dict) = false ->
  existsb is_None (values metadata_dict) = false ->
  mapM cstring_item (keys metadata_dict) = Ok c_fields ->
  mapM cstring_item (values metadata_dict) = Ok c_values ->
  let alloc := Call_new_source c_fields c_values
                 (Z.of_nat (length metadata_dict)) in
  lm_ret lib (native_trace w) alloc = Cffi.NULL ->
  fst (update_source lib self address metadata_dict w)
  = Raise (NewSourceFailed (lm_errno lib (native_trace w) alloc))
  /\ native_trace (snd (update_source lib self address metadata_dict w))
     = native_trace w ++ [alloc].
Proof.
  intros Hctx Hk Hv Hf Hvs alloc Hnull.
  unfold update_source. rewrite Hctx, bind_debug, Hk, Hv, Hf, Hvs.
  cbn [except_Exception_raise lift bind].
  rewrite bind_native. autorewrite with world. fold alloc.
  rewrite Hnull. cbn. autorewrite with world. auto.
Qed.

(** X8: when [marquise_new_source] returns NULL, [update_source] raises
    the [ValueError] carrying the errno that call left, and makes no
    other native call: no update, and no [marquise_free_source] of the
    NULL handle. *)
Theorem update_source_new_source_NULL
    lib self ctx address metadata_dict c_fields c_values w :
  marquise_ctx self = Some ctx ->
  ~ In None (keys metadata_dict) ->
  ~ In None (values metadata_dict) ->
  mapM cstring_item (keys metadata_dict) = Ok c_fields ->
  mapM cstring_item (values metadata_dict) = Ok c_values ->
  let alloc := Call_new_source c_fields c_values
                 (Z.of_nat (length metadata_dict)) in
  lm_ret lib (native_trace w) alloc = Cffi.NULL ->
  fst (update_source lib self address metadata_dict w)
  = Raise (NewSourceFailed (lm_errno lib (native_trace w) alloc))
  /\ class_of (NewSourceFailed (lm_errno lib (native_trace w) alloc))
     = ValueError
  /\ native_trace (snd (update_source lib self address metadata_dict w))
     = native_trace w ++ [alloc].
Proof.
  intros Hctx Hk Hv Hf Hvs alloc Hnull.
  assert (Ek : existsb is_None (keys metadata_dict) = false).
  { destruct (existsb is_None (keys metadata_dict)) eqn:E; [| reflexivity].
    apply existsb_is_None in E. contradiction. }
  assert (Ev : existsb is_None (values metadata_dict) = false).
  { destruct (existsb is_None (values metadata_dict)) eqn:E; [| reflexivity].
    apply existsb_is_None in E. contradiction. }
  destruct (update_source_before_alloc lib self ctx address metadata_dict
              c_fields c_values w Hctx Ek Ev Hf Hvs Hnull) as [Hr Ht].
  auto.
Qed.

Lemma update_source_new_source_NULL_witness :
  fst (update_source lib_no_source sample_open (PyInt 5)
         [(Some str_k, Some str_v)] sample_world)
  = Raise (NewSourceFailed 22)
  /\ native_trace
       (snd (update_source lib_no_source sample_open (PyInt 5)
               [(Some str_k, Some str_v)] sample_world))
     = [Call_new_source [[107; 0]] [[118; 0]] 1].
Proof.
  destruct (update_source_new_source_NULL lib_no_source sample_open
              sample_ctx (PyInt 5) [(Some str_k, Some str_v)]
              [[107; 0]] [[118; 0]] sample_world) as (Hr & _ & Ht);
    try reflexivity.
  - cbn. intros [H | H]; [discriminate H | exact H].
  - cbn. intros [H | H]; [discriminate H | exact H].
  - split; [exact Hr | exact Ht].
Defined.

(** X9: whenever [update_source] reaches the native library, its first
    call is [marquise_new_source], and the two arrays it passes are
    parallel to the items of the dict: both have exactly
    [len(metadata_dict)] entries, the count passed with them, and the
    entry of each key and of each value is its UTF-8 encoding followed
    by a NUL. *)
Theorem update_source_passes_parallel_arrays
    lib self address metadata_dict w :
  let encoded_as item buffer :=
    exists s encoded,
      item = Some s
      /\ Cffi.safe_encode s = Ok encoded
      /\ buffer = encoded ++ [0] in
  native_trace (snd (update_source lib self address metadata_dict w))
  = native_trace w
  \/ exists fields vals rest,
      native_trace (snd (update_source lib self address metadata_dict w))
      = native_trace w
        ++ Call_new_source fields vals (Z.of_nat (length metadata_dict))
           :: rest
      /\ length fields = length metadata_dict
      /\ length vals = length metadata_dict
      /\ Forall2 encoded_as (keys metadata_dict) fields
      /\ Forall2 encoded_as (values metadata_dict) vals.
Proof.
  intros encoded_as.
  destruct (marquise_ctx self) as [ctx|] eqn:Hctx;
    [| left; unfold update_source; now rewrite Hctx].
  destruct (existsb is_None (keys metadata_dict)) eqn:Hk.
  { left. unfold update_source. rewrite Hctx, bind_debug, Hk. cbn.
    apply debug_trace. }
  destruct (existsb is_None (values metadata_dict)) eqn:Hv.
  { left. unfold update_source. rewrite Hctx, bind_debug, Hk, Hv. cbn.
    apply debug_trace. }
  destruct (mapM cstring_item (keys metadata_dict)) as [fields | e] eqn:Hf.
  2:{ left. unfold update_source. rewrite Hctx, bind_debug, Hk, Hv, Hf. cbn.
      apply debug_trace. }
  destruct (mapM cstring_item (values metadata_dict)) as [vals | e] eqn:Hvs.
  2:{ left. unfold update_source.
      rewrite Hctx, bind_debug, Hk, Hv, Hf, Hvs. cbn. apply debug_trace. }
  right.
  pose proof (mapM_cstring_item _ _ Hf) as Ff.
  pose proof (mapM_cstring_item _ _ Hvs) as Fv.
  assert (Hlf : length fields = length metadata_dict).
  { apply Forall2_length in Ff. unfold keys in Ff.
    now rewrite length_map in Ff. }
  assert (Hlv : length vals = length metadata_dict).
  { apply Forall2_length in Fv. unfold values in Fv.
    now rewrite length_map in Fv. }
  set (alloc := Call_new_source fields vals
                  (Z.of_nat (length metadata_dict))).
  destruct (Z.eq_dec (lm_ret lib (native_trace w) alloc) Cffi.NULL)
    as [Hnull | Hsource].
  - destruct (update_source_before_alloc lib self ctx address metadata_dict
                fields vals w Hctx Hk Hv Hf Hvs Hnull) as [_ Ht].
    exists fields, vals, []. auto.
  - pose proof (update_source_allocated lib self ctx address metadata_dict
                  fields vals w Hctx Hk Hv Hf Hvs Hsource) as H.
    destruct (Cffi.to_c_uint64 address) as [a | e].
    + destruct H as [_ Ht]. eexists fields, vals, _. split; [exact Ht |].
      auto.
    + destruct H as [_ Ht].
      destruct (exn_class_eqb (class_of e) TypeError);
        eexists fields, vals, _; (split; [exact Ht | auto]).
Qed.

(** X10: once [marquise_new_source] has returned a handle, and unless
    the address is an int outside uint64, [update_source] hands that
    handle to [marquise_free_source] exactly once, whether the update
    succeeds, returns a nonzero status or is refused with a [TypeError];
    and on no exit does it free any other handle. *)
Theorem source_handle_freed_once
    lib self ctx address metadata_dict c_fields c_values w :
  marquise_ctx self = Some ctx ->
  existsb is_None (keys metadata_dict) = false ->
  existsb is_None (values metadata_dict) = false ->
  mapM cstring_item (keys metadata_dict) = Ok c_fields ->
  mapM cstring_item (values metadata_dict) = Ok c_values ->
  let source := lm_ret lib (native_trace w)
                  (Call_new_source c_fields c_values
                     (Z.of_nat (length metadata_dict))) in
  source <> Cffi.NULL ->
  ((forall z, address = PyInt z -> 0 <= z < 2 ^ 64) ->
   count_free source
     (native_trace (snd (update_source lib self address metadata_dict w)))
   = S (count_free source (native_trace w)))
  /\ (forall other,
         other <> source ->
         count_free other
           (native_trace
              (snd (update_source lib self address metadata_dict w)))
         = count_free other (native_trace w)).
Proof.
  intros Hctx Hk Hv Hf Hvs source Hsource. split.
  - intros Hrange.
    apply (update_source_frees_once lib self ctx address metadata_dict
             c_fields c_values w Hctx Hk Hv Hf Hvs Hsource).
    intros e He. destruct address as [|z|s]; unfold Cffi.to_c_uint64 in He;
      try (injection He as <-; reflexivity).
    specialize (Hrange z eq_refl).
    destruct (Z.leb_spec 0 z); [| lia].
    destruct (Z.ltb_spec z (2 ^ 64)); [| lia].
    discriminate He.
  - intros other Hother.
    pose proof (update_source_allocated lib self ctx address metadata_dict
                  c_fields c_values w Hctx Hk Hv Hf Hvs Hsource) as H.
    fold source in H.
    assert (Hneq : (source =? other) = false) by (apply Z.eqb_neq; congruence).
    destruct (Cffi.to_c_uint64 address) as [a | e].
    + destruct H as [_ ->]. rewrite count_free_app. cbn. rewrite Hneq. lia.
    + destruct H as [_ ->]. rewrite count_free_app.
      destruct (exn_class_eqb (class_of e) TypeError); cbn;
        rewrite ?Hneq; lia.
Qed.

Lemma source_handle_freed_once_witness :
  count_free 8192
    (native_trace
       (snd (update_source lib_update_fails sample_open (PyInt 5)
               [(Some str_k, Some str_v)] sample_world)))
  = 1%nat
  /\ count_free 8192
       (native_trace
          (snd (update_source lib_healthy sample_open (PyStr str_k)
                  [(Some str_k, Some str_v)] sample_world)))
     = 1%nat.
Proof.
  split.
  - refine (proj1 (source_handle_freed_once lib_update_fails sample_open
                     sample_ctx (PyInt 5) [(Some str_k, Some str_v)]
                     [[107; 0]] [[118; 0]] sample_world _ _ _ _ _ _) _);
      try reflexivity.
    + vm_compute. discriminate.
    + intros z H. injection H as <-. lia.
  - refine (proj1 (source_handle_freed_once lib_healthy sample_open
                     sample_ctx (PyStr str_k) [(Some str_k, Some str_v)]
                     [[107; 0]] [[118; 0]] sample_world _ _ _ _ _ _) _);
      try reflexivity.
    + vm_compute. discriminate.
    + intros z H. discriminate H.
Defined.

(** X11: when the native update call returns a nonzero status,
    [update_source] frees the source handle before it raises, and the
    errno its [RuntimeError] reports is the one left by that
    [marquise_free_source] call, the last native call made. *)
Theorem update_source_failure_reports_errno_after_free
    lib self ctx address c_address metadata_dict c_fields c_values w :
  marquise_ctx self = Some ctx ->
  existsb is_None (keys metadata_dict) = false ->
  existsb is_None (values metadata_dict) = false ->
  mapM cstring_item (keys metadata_dict) = Ok c_fields ->
  mapM cstring_item (values metadata_dict) = Ok c_values ->
  let alloc := Call_new_source c_fields c_values
                 (Z.of_nat (length metadata_dict)) in
  let source := lm_ret lib (native_trace w) alloc in
  let update := Call_update_source (ctx_ptr ctx) c_address source in
  let free := Call_free_source source in
  source <> Cffi.NULL ->
  Cffi.to_c_uint64 address = Ok c_address ->
  lm_ret lib (native_trace w ++ [alloc]) update <> 0 ->
  fst (update_source lib self address metadata_dict w)
  = Raise (UpdateSourceFailed
             (lm_errno lib (native_trace w ++ [alloc; update]) free))
  /\ native_trace (snd (update_source lib self address metadata_dict w))
     = native_trace w ++ [alloc; update; free].
Proof.
  intros Hctx Hk Hv Hf Hvs alloc source update free Hsource Haddr Hstatus.
  pose proof (update_source_allocated lib self ctx address metadata_dict
                c_fields c_values w Hctx Hk Hv Hf Hvs Hsource) as H.
  rewrite Haddr in H. cbv zeta in H. fold alloc source update free in H.
  apply Z.eqb_neq in Hstatus. rewrite Hstatus in H. exact H.
Qed.

Lemma update_source_failure_reports_errno_after_free_witness :
  lm_errno lib_update_fails [Call_new_source [[107; 0]] [[118; 0]] 1]
    (Call_update_source 4096 5 8192) = 5
  /\ fst (update_source lib_update_fails sample_open (PyInt 5)
            [(Some str_k, Some str_v)] sample_world)
     = Raise (UpdateSourceFailed 0)
  /\ native_trace
       (snd (update_source lib_update_fails sample_open (PyInt 5)
               [(Some str_k, Some str_v)] sample_world))
     = [Call_new_source [[107; 0]] [[118; 0]] 1;
        Call_update_source 4096 5 8192; Call_free_source 8192].
Proof.
  split; [reflexivity |].
  refine (update_source_failure_reports_errno_after_free lib_update_fails
            sample_open sample_ctx (PyInt 5) 5 [(Some str_k, Some str_v)]
            [[107; 0]] [[118; 0]] sample_world _ _ _ _ _ _ _ _);
    try reflexivity; vm_compute; discriminate.
Defined.

(** X12: with a dict that passes the checks, a handle from
    [marquise_new_source] and an address within uint64, [update_source]
    makes three native calls in this order: [marquise_new_source],
    [marquise_update_source] on the context, the address and the
    handle, [marquise_free_source]; it returns [True] exactly when the
    update call returned status 0 and raises a [RuntimeError]
    otherwise. *)
Theorem update_source_reports_native_status
    lib self ctx address c_address metadata_dict c_fields c_values w :
  marquise_ctx self = Some ctx ->
  existsb is_None (keys metadata_dict) = false ->
  existsb is_None (values metadata_dict) = false ->
  mapM cstring_item (keys metadata_dict) = Ok c_fields ->
  mapM cstring_item (values metadata_dict) = Ok c_values ->
  let alloc := Call_new_source c_fields c_values
                 (Z.of_nat (length metadata_dict)) in
  let source := lm_ret lib (native_trace w) alloc in
  let update := Call_update_source (ctx_ptr ctx) c_address source in
  source <> Cffi.NULL ->
  address = PyInt c_address ->
  0 <= c_address < 2 ^ 64 ->
  native_trace (snd (update_source lib self address metadata_dict w))
  = native_trace w ++ [alloc; update; Call_free_source source]
  /\ (fst (update_source lib self address metadata_dict w) = Ok true
      <-> lm_ret lib (native_trace w ++ [alloc]) update = 0)
  /\ (lm_ret lib (native_trace w ++ [alloc]) update <> 0 ->
      exists e,
        fst (update_source lib self address metadata_dict w) = Raise e
        /\ class_of e = RuntimeError).
Proof.
  intros Hctx Hk Hv Hf Hvs alloc source update Hsource Haddr Hrange.
  pose proof (update_source_allocated lib self ctx address metadata_dict
                c_fields c_values w Hctx Hk Hv Hf Hvs Hsource) as H.
  assert (Hconv : Cffi.to_c_uint64 address = Ok c_address).
  { subst address. unfold Cffi.to_c_uint64.
    destruct (Z.leb_spec 0 c_address); [| lia].
    destruct (Z.ltb_spec c_address (2 ^ 64)); [reflexivity | lia]. }
  rewrite Hconv in H. cbv zeta in H. fold alloc source update in H.
  destruct H as [Hr Htr]. split; [exact Htr |]. rewrite Hr.
  destruct (Z.eqb_spec (lm_ret lib (native_trace w ++ [alloc]) update) 0)
    as [E | E]; split.
  - tauto.
  - congruence.
  - split; [discriminate | congruence].
  - intros _. eexists. split; reflexivity.
Qed.

Lemma update_source_reports_native_status_witness :
  native_trace
    (snd (update_source lib_healthy sample_open (PyInt 5)
            [(Some str_k, Some str_v)] sample_world))
  = [Call_new_source [[107; 0]] [[118; 0]] 1;
     Call_update_source 4096 5 8192; Call_free_source 8192]
  /\ fst (update_source lib_healthy sample_open (PyInt 5)
            [(Some str_k, Some str_v)] sample_world) = Ok true.
Proof.
  destruct (update_source_reports_native_status lib_healthy sample_open
              sample_ctx (PyInt 5) 5 [(Some str_k, Some str_v)]
              [[107; 0]] [[118; 0]] sample_world) as (Htr & Hiff & _);
    try reflexivity.
  - vm_compute. discriminate.
  - lia.
  - split; [exact Htr | apply Hiff; reflexivity].
Defined.

(** ** send_simple and send_extended: what reaches the library *)

(** X13: on an open context the three integers [send_simple] hands to
    the native append are its arguments reduced modulo 2^64, so they
    always lie within uint64: an address, timestamp or value outside
    that range is wrapped, not refused. *)
Theorem send_simple_wraps_to_uint64
    lib self ctx address timestamp t value w :
  marquise_ctx self = Some ctx ->
  fst (timestamp_or_now timestamp w) = Ok t ->
  exists a' t' v',
    native_trace (snd (send_simple lib self address timestamp value w))
    = native_trace w ++ [Call_send_simple (ctx_ptr ctx) a' t' v']
    /\ (a' = address mod 2 ^ 64 /\ 0 <= a' < 2 ^ 64)
    /\ (t' = t mod 2 ^ 64 /\ 0 <= t' < 2 ^ 64)
    /\ (v' = value mod 2 ^ 64 /\ 0 <= v' < 2 ^ 64).
Proof.
  intros Hctx Ht.
  destruct (send_simple_open lib self ctx address timestamp t value w
              Hctx Ht) as [_ Htr].
  exists (Cffi.cast_uint64 address), (Cffi.cast_uint64 t),
    (Cffi.cast_uint64 value).
  split; [exact Htr |]. unfold Cffi.cast_uint64.
  repeat split; try apply Z.mod_pos_bound; reflexivity.
Qed.

Lemma send_simple_wraps_to_uint64_witness :
  native_trace
    (snd (send_simple lib_healthy sample_open (-1) (Some (2 ^ 64 + 5)) 7
            sample_world))
  = [Call_send_simple 4096 (2 ^ 64 - 1) 5 7].
Proof.
  destruct (send_simple_wraps_to_uint64 lib_healthy sample_open sample_ctx
              (-1) (Some (2 ^ 64 + 5)) (2 ^ 64 + 5) 7 sample_world
              eq_refl eq_refl)
    as (a' & t' & v' & Htr & (Ha & _) & (Ht & _) & (Hv & _)).
  rewrite Htr, Ha, Ht, Hv. reflexivity.
Defined.

(** X14: on an open context, [send_extended] with a value that has no
    UTF-8 encoding (a lone surrogate) raises [UnicodeEncodeError] from
    [cstring] before any native call: nothing is appended. *)
Theorem send_extended_rejects_unencodable
    lib self address timestamp t value w :
  marquise_ctx self <> None ->
  fst (timestamp_or_now timestamp w) = Ok t ->
  Utf8.encode value = None ->
  fst (send_extended lib self address timestamp value w) = Raise EncodeError
  /\ class_of EncodeError = UnicodeEncodeError
  /\ native_trace (snd (send_extended lib self address timestamp value w))
     = native_trace w.
Proof.
  intros Hopen Ht Henc. unfold send_extended.
  destruct (marquise_ctx self) as [ctx|]; [| congruence].
  rewrite bind_debug.
  rewrite (bind_timestamp timestamp _ t)
    by (rewrite <- Ht; apply timestamp_or_now_clock; apply debug_clock).
  unfold Cffi.cstring, Cffi.safe_encode. rewrite Henc. cbn.
  repeat split. apply debug_trace.
Qed.

Lemma send_extended_rejects_unencodable_witness :
  fst (send_extended lib_healthy sample_open 42 (Some 5) [97; 0xDC00]
         sample_world) = Raise EncodeError
  /\ native_trace
       (snd (send_extended lib_healthy sample_open 42 (Some 5) [97; 0xDC00]
               sample_world))
     = native_trace sample_world.
Proof.
  destruct (send_extended_rejects_unencodable lib_healthy sample_open 42
              (Some 5) 5 [97; 0xDC00] sample_world) as (Hr & _ & Ht);
    try reflexivity; [discriminate | auto].
Defined.

(** X15: when the native append returns a nonzero status, the
    [RuntimeError] of [send_simple] and of [send_extended] reports the
    errno left by that very call, and no further native call is made. *)
Theorem send_failure_reports_errno_of_append
    lib self ctx address timestamp t value text encoded w :
  marquise_ctx self = Some ctx ->
  fst (timestamp_or_now timestamp w) = Ok t ->
  Cffi.safe_encode text = Ok encoded ->
  let simple := Call_send_simple (ctx_ptr ctx) (Cffi.cast_uint64 address)
                  (Cffi.cast_uint64 t) (Cffi.cast_uint64 value) in
  let extended := Call_send_extended (ctx_ptr ctx)
                    (Cffi.cast_uint64 address) (Cffi.cast_uint64 t)
                    (encoded ++ [0])
                    (Cffi.cast_uint64 (Z.of_nat (length encoded))) in
  (lm_ret lib (native_trace w) simple <> 0 ->
   fst (send_simple lib self address timestamp value w)
   = Raise (SendSimpleFailed (lm_errno lib (native_trace w) simple))
   /\ native_trace (snd (send_simple lib self address timestamp value w))
      = native_trace w ++ [simple])
  /\ (lm_ret lib (native_trace w) extended <> 0 ->
      fst (send_extended lib self address timestamp text w)
      = Raise (SendExtendedFailed (lm_errno lib (native_trace w) extended))
      /\ native_trace (snd (send_extended lib self address timestamp text w))
         = native_trace w ++ [extended]).
Proof.
  intros Hctx Ht Henc simple extended. split; intros Hst;
    apply Z.eqb_neq in Hst.
  - destruct (send_simple_open lib self ctx address timestamp t value w
                Hctx Ht) as [Hr Htr].
    fold simple in Hr, Htr. rewrite Hst in Hr. auto.
  - destruct (send_extended_open lib self ctx address timestamp t text
                encoded w Hctx Ht Henc) as [Hr Htr].
    fold extended in Hr, Htr. rewrite Hst in Hr. auto.
Qed.

Lemma send_failure_reports_errno_of_append_witness :
  fst (send_simple lib_exhausted sample_open 42 (Some 5) 7 sample_world)
  = Raise (SendSimpleFailed 28)
  /\ fst (send_extended lib_exhausted sample_open 42 (Some 5) str_abc
            sample_world)
     = Raise (SendExtendedFailed 28).
Proof.
  pose proof (send_failure_reports_errno_of_append lib_exhausted sample_open
                sample_ctx 42 (Some 5) 5 7 str_abc [97; 98; 99] sample_world
                eq_refl eq_refl eq_refl) as [Hs Hx].
  split.
  - apply Hs. vm_compute. discriminate.
  - apply Hx. vm_compute. discriminate.
Defined.

(** ** Opening, and closing what was opened *)

Lemma bind_unfold {A B} (m : M A) (k : A -> M B) w :
  bind m k w
  = match m w with
    | (Ok a, w') => k a w'
    | (Raise e, w') => (Raise e, w')
    end.
Proof. reflexivity. Qed.

(** X16: [close] never raises and always leaves the object closed,
    with its spool paths kept; on an open context it makes one native
    call, [marquise_shutdown] of the pointer held, and the status that
    call returns is ignored. *)
Theorem close_ignores_shutdown_status lib self w :
  exists closed,
    fst (close lib self w) = Ok closed
    /\ marquise_ctx closed = None
    /\ spool_path_points closed = spool_path_points self
    /\ spool_path_contents closed = spool_path_contents self
    /\ forall ctx,
        marquise_ctx self = Some ctx ->
        native_trace (snd (close lib self w))
        = native_trace w ++ [Call_shutdown (ctx_ptr ctx)].
Proof.
  unfold close. destruct (marquise_ctx self) as [ctx|] eqn:Hctx;
    rewrite bind_debug.
  - eexists. cbn [bind native ret fst snd]. split; [reflexivity |].
    cbn. repeat split. intros ctx' H. injection H as <-.
    now rewrite debug_trace.
  - exists self. cbn. repeat split; [exact Hctx | discriminate].
Qed.

(** What [__init__] does around its one native call. *)
Lemma init_footprint lib namespace debug w :
  match Utf8.encode namespace with
  | None =>
      fst (__init__ lib namespace debug w) = Raise EncodeError
      /\ native_trace (snd (__init__ lib namespace debug w)) = native_trace w
  | Some encoded =>
      native_trace (snd (__init__ lib namespace debug w))
      = native_trace w ++ [Call_init (encoded ++ [0])]
      /\ ((exists self,
              fst (__init__ lib namespace debug w) = Ok self
              /\ marquise_ctx self <> None
              /\ namespace_c self = encoded ++ [0])
          \/ (fst (__init__ lib namespace debug w)
              = Raise (InvalidNamespace namespace)
              /\ ffi_errno (snd (__init__ lib namespace debug w)) = EINVAL)
          \/ (fst (__init__ lib namespace debug w)
              = Raise (InitFailed
                         (ffi_errno (snd (__init__ lib namespace debug w))))
              /\ ffi_errno (snd (__init__ lib namespace debug w))
                 <> EINVAL))
  end.
Proof.
  unfold __init__, Cffi.cstring, Cffi.safe_encode.
  destruct (Utf8.encode namespace) as [encoded|]; [| now split].
  cbn [rbind lift bind]. unfold marquise_init, Cffi.ffi_new_chars.
  rewrite bind_unfold. cbv beta.
  set (call := Call_init (encoded ++ [0])).
  set (ns := Cffi.ffi_string (encoded ++ [0])).
  destruct (Libmarquise.valid_namespace ns) eqn:Hvalid.
  - destruct (Cffi.is_cnull (lm_ret lib (native_trace w) call)).
    + cbn [bind get_errno fst snd ffi_errno native_trace].
      destruct (Z.eqb_spec (lm_errno lib (native_trace w) call) EINVAL);
        cbn; auto.
    + assert (Hascii : is_ascii_text ns = true)
        by (apply namespace_pattern_ascii; exact Hvalid).
      cbn [ctx_spool_path_points ctx_spool_path_contents].
      rewrite !cprint_spool_path by (assumption || reflexivity).
      cbn. split; [reflexivity |]. left. eexists. split; [reflexivity |].
      cbn. split; [discriminate | reflexivity].
  - cbn. split; [reflexivity |]. right. left. auto.
Qed.

(** X17: [__init__] reaches the native library at most once.  A
    namespace without UTF-8 encoding raises [UnicodeEncodeError] before
    any call; otherwise the one call is [marquise_init] on the encoded
    namespace followed by NUL, and what comes back is an open object,
    or the invalid-namespace [ValueError] exactly when the errno left by
    the call is [EINVAL], or the [RuntimeError] carrying that errno. *)
Theorem init_calls_marquise_init_once lib namespace debug w :
  match Utf8.encode namespace with
  | None =>
      fst (__init__ lib namespace debug w) = Raise EncodeError
      /\ native_trace (snd (__init__ lib namespace debug w)) = native_trace w
  | Some encoded =>
      native_trace (snd (__init__ lib namespace debug w))
      = native_trace w ++ [Call_init (encoded ++ [0])]
      /\ ((exists self,
              fst (__init__ lib namespace debug w) = Ok self
              /\ marquise_ctx self <> None
              /\ namespace_c self = encoded ++ [0])
          \/ (fst (__init__ lib namespace debug w)
              = Raise (InvalidNamespace namespace)
              /\ ffi_errno (snd (__init__ lib namespace debug w)) = EINVAL)
          \/ (fst (__init__ lib namespace debug w)
              = Raise (InitFailed
                         (ffi_errno (snd (__init__ lib namespace debug w))))
              /\ ffi_errno (snd (__init__ lib namespace debug w))
                 <> EINVAL))
  end.
Proof. exact (init_footprint lib namespace debug w). Qed.

(** X18: for a namespace matching [[a-z0-9]+] for which
    [marquise_init] returns a context, opening and then closing makes
    exactly two native calls, [marquise_init] and then
    [marquise_shutdown] of the pointer it returned; the closed object
    keeps its two spool paths. *)
Theorem open_then_close lib namespace debug w :
  namespace_pattern namespace = true ->
  let init := Call_init (namespace ++ [0]) in
  lm_ret lib (native_trace w) init <> Cffi.NULL ->
  exists closed,
    fst ((self <- __init__ lib namespace debug ;; close lib self) w)
    = Ok closed
    /\ marquise_ctx closed = None
    /\ spool_path_points closed
       = Libmarquise.build_spool_path namespace Libmarquise.stream_points
    /\ spool_path_contents closed
       = Libmarquise.build_spool_path namespace Libmarquise.stream_contents
    /\ native_trace
         (snd ((self <- __init__ lib namespace debug ;; close lib self) w))
       = native_trace w
         ++ [init; Call_shutdown (lm_ret lib (native_trace w) init)].
Proof.
  intros Hvalid init Hret.
  pose proof (init_valid_namespace lib namespace debug w Hvalid) as Hfst.
  cbv zeta in Hfst. fold init in Hfst.
  apply Z.eqb_neq in Hret. unfold Cffi.is_cnull in Hfst.
  rewrite Hret in Hfst.
  pose proof (init_footprint lib namespace debug w) as Hsnd.
  rewrite (encode_ascii_text namespace
             (namespace_pattern_ascii namespace Hvalid)) in Hsnd.
  destruct Hsnd as [Htr _]. fold init in Htr.
  rewrite bind_unfold.
  destruct (__init__ lib namespace debug w) as [r w1].
  cbn [fst snd] in Hfst, Htr. subst r.
  unfold close. cbn [marquise_ctx]. rewrite bind_debug.
  cbn [bind native ret fst snd native_trace ctx_ptr spool_path_points
         spool_path_contents marquise_ctx].
  eexists. split; [reflexivity |]. cbn.
  repeat split. rewrite debug_trace, Htr, <- app_assoc. reflexivity.
Qed.

Lemma open_then_close_witness :
  exists closed,
    fst ((self <- __init__ lib_healthy str_abc true ;;
          close lib_healthy self) sample_world) = Ok closed
    /\ marquise_ctx closed = None
    /\ spool_path_points closed
       = Libmarquise.build_spool_path str_abc Libmarquise.stream_points
    /\ spool_path_contents closed
       = Libmarquise.build_spool_path str_abc Libmarquise.stream_contents
    /\ native_trace
         (snd ((self <- __init__ lib_healthy str_abc true ;;
                close lib_healthy self) sample_world))
       = native_trace sample_world
         ++ [Call_init (str_abc ++ [0]);
             Call_shutdown
               (lm_ret lib_healthy (native_trace sample_world)
                  (Call_init (str_abc ++ [0])))].
Proof.
  apply (open_then_close lib_healthy str_abc true sample_world eq_refl).
  vm_compute. discriminate.
Defined.

(** X19: a namespace outside [[a-z0-9]+] that has a UTF-8 encoding
    and holds no NUL character is refused: [__init__] raises the
    [ValueError] naming that namespace, after the single
    [marquise_init] call, which leaves [FFI.errno] at [EINVAL]. *)
Theorem invalid_namespace_without_NUL_rejected
    lib namespace encoded debug w :
  namespace_pattern namespace = false ->
  ~ In 0 namespace ->
  Cffi.safe_encode namespace = Ok encoded ->
  fst (__init__ lib namespace debug w) = Raise (InvalidNamespace namespace)
  /\ class_of (InvalidNamespace namespace) = ValueError
  /\ native_trace (snd (__init__ lib namespace debug w))
     = native_trace w ++ [Call_init (encoded ++ [0])]
  /\ ffi_errno (snd (__init__ lib namespace debug w)) = EINVAL.
Proof.
  intros Hinvalid Hnul Henc.
  destruct (init_rejects_invalid_namespace lib namespace encoded debug w
              Hinvalid Hnul Henc) as [Hr Hc].
  pose proof (init_footprint lib namespace debug w) as H.
  unfold Cffi.safe_encode in Henc.
  destruct (Utf8.encode namespace) as [bs|]; [| discriminate].
  injection Henc as ->. destruct H as [Htr Hcases].
  repeat split; auto.
  destruct Hcases as [(self & Hok & _) | [[_ He] | [Hfail _]]];
    [congruence | exact He | congruence].
Qed.

Lemma invalid_namespace_without_NUL_rejected_witness :
  fst (__init__ lib_healthy [97; 45; 0xE9] false sample_world)
  = Raise (InvalidNamespace [97; 45; 0xE9])
  /\ native_trace (snd (__init__ lib_healthy [97; 45; 0xE9] false
                          sample_world))
     = [Call_init [97; 45; 195; 169; 0]].
Proof.
  destruct (invalid_namespace_without_NUL_rejected lib_healthy
              [97; 45; 0xE9] [97; 45; 195; 169] false sample_world)
    as (Hr & _ & Ht & _).
  - reflexivity.
  - cbn. intros [H | [H | [H | H]]]; try discriminate H. exact H.
  - reflexivity.
  - split; [exact Hr | exact Ht].
Defined.

(** ** The header handed to CFFI *)

Module HeaderFacts.

Import String.
Local Open Scope string_scope.

Lemma append_empty_r s : s ++ "" = s.
Proof. induction s as [|c s IH]; cbn; [reflexivity | now rewrite IH]. Qed.

Lemma append_assoc s1 s2 s3 : (s1 ++ s2) ++ s3 = s1 ++ (s2 ++ s3).
Proof. induction s1 as [|c s1 IH]; cbn; [reflexivity | now rewrite IH]. Qed.

Lemma concat_cons x xs : concat "" (x :: xs) = x ++ concat "" xs.
Proof.
  destruct xs as [|y ys]; cbn [concat]; [now rewrite append_empty_r |].
  reflexivity.
Qed.

Lemma concat_app l1 l2 :
  concat "" (l1 ++ l2) = concat "" l1 ++ concat "" l2.
Proof.
  induction l1 as [|x l1 IH]; [reflexivity |].
  cbn [app]. now rewrite !concat_cons, IH, append_assoc.
Qed.

Lemma replace_absent old new s :
  Header.occurs old s = false -> Header.replace_from O old new s = s.
Proof.
  induction s as [|c s IH]; [reflexivity |].
  cbn [Header.occurs Header.replace_from]. intros H.
  apply Bool.orb_false_elim in H as [Hp Hs].
  now rewrite Hp, (IH Hs).
Qed.

Lemma header_is_linewise_aux :
  (forall lines1 lines2,
      Header.get_libmarquise_header (lines1 ++ lines2)%list
      = Header.get_libmarquise_header lines1
        ++ Header.get_libmarquise_header lines2)
  /\ (forall line,
         Header.get_libmarquise_header [line]
         = if Header.startswith line "#include "
              || Header.startswith line "#define "
           then ""
           else Header.str_replace "GTree *sd_hashes;" "...;" line).
Proof.
  split.
  - intros lines1 lines2. unfold Header.get_libmarquise_header.
    now rewrite !filter_app, map_app, concat_app.
  - intros line. unfold Header.get_libmarquise_header. cbn [filter].
    destruct (Header.startswith line "#include ") eqn:Hi;
      destruct (Header.startswith line "#define ");
      cbn [negb andb orb filter map concat]; try reflexivity.
    now rewrite Hi.
Qed.

(** X20: [get_libmarquise_header] treats each line on its own, in
    order: the header of two runs of lines is the header of the first
    followed by the header of the second, and a single line is dropped
    when it starts with ["#include "] or ["#define "] (exactly so: no
    leading blanks) and otherwise kept with ["GTree *sd_hashes;"]
    replaced by ["...;"].  The second filter of the function drops
    nothing more. *)
Theorem header_is_linewise :
  (forall lines1 lines2,
      Header.get_libmarquise_header (lines1 ++ lines2)%list
      = Header.get_libmarquise_header lines1
        ++ Header.get_libmarquise_header lines2)
  /\ (forall line,
         Header.get_libmarquise_header [line]
         = if Header.startswith line "#include "
              || Header.startswith line "#define "
           then ""
           else Header.str_replace "GTree *sd_hashes;" "...;" line).
Proof. exact header_is_linewise_aux. Qed.

(** X21: a header none of whose lines starts with ["#include "] or
    ["#define "] or contains ["GTree *sd_hashes;"] comes back as it was
    read: the lines joined, unchanged. *)
Theorem header_without_directives_is_verbatim lines :
  Forall (fun line =>
            Header.startswith line "#include " = false
            /\ Header.startswith line "#define " = false
            /\ Header.occurs "GTree *sd_hashes;" line = false) lines ->
  Header.get_libmarquise_header lines = concat "" lines.
Proof.
  intros H. induction H as [|line lines (Hi & Hd & Ho) _ IH].
  - reflexivity.
  - change (line :: lines) with ([line] ++ lines)%list.
    rewrite (proj1 header_is_linewise_aux), concat_app, IH.
    f_equal. rewrite (proj2 header_is_linewise_aux), Hi, Hd. cbn [orb].
    unfold Header.str_replace. now apply replace_absent.
Qed.

Lemma header_without_directives_is_verbatim_witness :
  Header.get_libmarquise_header ["int marquise_shutdown(void);";
                                 " #define kept"]
  = "int marquise_shutdown(void); #define kept".
Proof.
  apply (header_without_directives_is_verbatim
           ["int marquise_shutdown(void);"; " #define kept"]).
  repeat constructor.
Defined.

Lemma prefix_empty s : prefix "" s = true.
Proof. now destruct s. Qed.

Lemma prefix_first_differs a old c s s' :
  prefix (String a "") (String c s) = false ->
  prefix (String a old) (String c s') = false.
Proof.
  cbn [prefix]. destruct (Ascii.ascii_dec a c); [| reflexivity].
  now rewrite prefix_empty.
Qed.

(** X22: in a line where no [G] comes before the text
    ["GTree *sd_hashes;"], [get_libmarquise_header]'s replacement turns
    that occurrence into ["...;"], leaves what precedes it as it is, and
    goes on with what follows it. *)
Theorem replace_first_GTree before after :
  Header.occurs "G" before = false ->
  Header.str_replace "GTree *sd_hashes;" "...;"
    (before ++ "GTree *sd_hashes;" ++ after)
  = before ++ "...;"
    ++ Header.str_replace "GTree *sd_hashes;" "...;" after.
Proof.
  unfold Header.str_replace. induction before as [|c before IH]; intros H.
  - cbn. now rewrite prefix_empty.
  - cbn [Header.occurs] in H. apply Bool.orb_false_elim in H as [Hc Hrest].
    cbn [append Header.replace_from].
    rewrite (prefix_first_differs _ _ _ _ _ Hc). f_equal. exact (IH Hrest).
Qed.

Lemma replace_first_GTree_witness :
  Header.get_libmarquise_header ["  GTree *sd_hashes; /* GTree */"]
  = "  ...; /* GTree */".
Proof.
  rewrite (proj2 header_is_linewise_aux). cbn [Header.startswith prefix orb].
  exact (replace_first_GTree "  " " /* GTree */" eq_refl).
Defined.

End HeaderFacts.
